(** * HomebrewNLP-Jax: reversible engine, parameter store, collectives,
      loss truncation and streaming monitor

    A shallow embedding of [src/model.py], [src/backend.py] and
    [src/utils/wandblog.py].  Floating-point values are idealised as exact
    rationals ([Q], compared with [==]); the 32-bit depth counter is a [Z]
    with its wrap-around written out; Python dictionaries are [gmap]s;
    attribute mutation of the context object is explicit state passing;
    Python exceptions are the [Raised] results.

    Part I holds the definitions, Part II the theorems. *)

From Stdlib Require Import ZArith QArith Qround Qpower Qfield Lia Lqa.
From Stdlib Require Import List Sorting.Sorted Sorting.Permutation.
From stdpp Require Import gmap strings list.

(** * Part I: the program *)

(** ** Python and JAX basics *)

Inductive exn : Type :=
| ZeroDivisionError
| ValueError
| IndexError
| KeyError
| TypeError.

Inductive result (A : Type) : Type :=
| Returned (a : A)
| Raised (e : exn).

Arguments Returned {A} a.
Arguments Raised {A} e.

Module Int32.

Local Open Scope Z_scope.

Definition min_signed : Z := - 2 ^ 31.
Definition max_signed : Z := 2 ^ 31 - 1.

(** Two's-complement reduction into [-2^31, 2^31). *)
Definition wrap (z : Z) : Z := (z + 2 ^ 31) mod 2 ^ 32 - 2 ^ 31.

(** [a + b] on [jnp.int32] values. *)
Definition add (a b : Z) : Z := wrap (a + b).

Definition in_range (z : Z) : Prop := min_signed <= z <= max_signed.

End Int32.

(** [l[start:]] for a Python list: a negative [start] counts from the end
    and is clamped at the front, a non-negative one drops that many
    entries.  In particular [l[-0:]] is the whole list. *)
Definition py_slice_from {A : Type} (start : Z) (l : list A) : list A :=
  if (start <? 0)%Z
  then skipn (Z.to_nat (Z.max 0 (Z.of_nat (length l) + start))) l
  else skipn (Z.to_nat start) l.

(** The last [n] entries of a list (all of it when it is shorter). *)
Definition keep_last {A : Type} (n : nat) (l : list A) : list A :=
  skipn (length l - n) l.

(** [max(l)] on a list of Python ints; [None] is the [ValueError] on an
    empty list. *)
Definition py_max (l : list Z) : option Z :=
  match l with
  | [] => None
  | x :: t => Some (fold_left Z.max t x)
  end.

Definition Qlt_bool (a b : Q) : bool := negb (Qle_bool b a).

Definition Qsum (l : list Q) : Q := fold_right Qplus 0%Q l.

(** Insertion sort along a boolean order. *)
Fixpoint insert_by (leb : Q -> Q -> bool) (x : Q) (l : list Q) : list Q :=
  match l with
  | [] => [x]
  | y :: t => if leb x y then x :: y :: t else y :: insert_by leb x t
  end.

Definition sort_by (leb : Q -> Q -> bool) (l : list Q) : list Q :=
  fold_right (insert_by leb) [] l.

(** Ascending order, standing for the ordering step inside [np.median]. *)
Definition sort_asc (l : list Q) : list Q := sort_by Qle_bool l.

(** Descending order, standing for the ordering of [lax.top_k]. *)
Definition sort_desc (l : list Q) : list Q := sort_by (fun a b => Qle_bool b a) l.

Definition ascending (l : list Q) : Prop := StronglySorted Qle l.
Definition descending (l : list Q) : Prop := StronglySorted (fun a b => (b <= a)%Q) l.
Definition strictly_decreasing (l : list Q) : Prop :=
  StronglySorted (fun a b => (b < a)%Q) l.

(** The middle of an ascending list: the middle entry for an odd length,
    the mean of the two middle entries for an even one. *)
Definition middle (s : list Q) : Q :=
  let n := length s in
  if Nat.even n
  then ((nth (n / 2 - 1) s 0 + nth (n / 2) s 0) / 2)%Q
  else nth (n / 2) s 0%Q.

(** [np.median(l)].  On an empty list numpy answers [nan], which the
    rationals do not have; the monitor never asks for it from a state
    reached from [WandbLog.__init__] with a positive window. *)
Definition median (l : list Q) : Q := middle (sort_asc l).

(** [lax.top_k(x, k)]: the [k] largest entries, largest first; [k] must
    lie between 0 and the length. *)
Definition lax_top_k (x : list Q) (k : Z) : result (list Q) :=
  if ((0 <=? k) && (k <=? Z.of_nat (length x)))%Z
  then Returned (firstn (Z.to_nat k) (sort_desc x))
  else Raised ValueError.

(** ** The context object ([src/context.py], not among the sources)

    Only the attributes read or written by the modelled functions. [T] is
    the type of parameter tensors. *)

Inductive dtype : Type := float32 | bfloat16 | float64.

Record Model : Type := mkModel {
  momentumnet_beta : Q;
  computation_dtype : dtype;
  storage_dtype : dtype
}.

Record Context (T : Type) : Type := mkContext {
  is_initializing : bool;
  parameters : gmap string T;
  parameter_variance : gmap string Q;
  parameter_dims : gmap string (list string);
  name_cache : gmap string Z;
  prng_key : Z;
  depth_index : Z;            (* jnp.int32 array of shape (1,) *)
  name_prefix : list string;
  model : Model
}.

Arguments mkContext {T}.
Arguments is_initializing {T}.
Arguments parameters {T}.
Arguments parameter_variance {T}.
Arguments parameter_dims {T}.
Arguments name_cache {T}.
Arguments prng_key {T}.
Arguments depth_index {T}.
Arguments name_prefix {T}.
Arguments model {T}.

Definition set_parameters {T} (c : Context T) (p : gmap string T) : Context T :=
  mkContext (is_initializing c) p (parameter_variance c) (parameter_dims c)
            (name_cache c) (prng_key c) (depth_index c) (name_prefix c) (model c).

Definition set_parameter_variance {T} (c : Context T) (v : gmap string Q) : Context T :=
  mkContext (is_initializing c) (parameters c) v (parameter_dims c)
            (name_cache c) (prng_key c) (depth_index c) (name_prefix c) (model c).

Definition set_name_cache {T} (c : Context T) (n : gmap string Z) : Context T :=
  mkContext (is_initializing c) (parameters c) (parameter_variance c) (parameter_dims c)
            n (prng_key c) (depth_index c) (name_prefix c) (model c).

Definition set_prng_key {T} (c : Context T) (k : Z) : Context T :=
  mkContext (is_initializing c) (parameters c) (parameter_variance c) (parameter_dims c)
            (name_cache c) k (depth_index c) (name_prefix c) (model c).

Definition set_depth_index {T} (c : Context T) (d : Z) : Context T :=
  mkContext (is_initializing c) (parameters c) (parameter_variance c) (parameter_dims c)
            (name_cache c) (prng_key c) d (name_prefix c) (model c).

(** ** The reversible composition engine ([src/model.py]) *)

Section Engine.

(** Activations all have the shape of the embedded input ([body_ctx]
    builds both rails from [src] and [zeros_like(src)], and blocks keep the
    shape), so a tensor is a function from the positions of its shape to
    its entries and arithmetic is element-wise. *)
Variable index : Type.

Definition tensor : Type := index -> Q.

Definition tensor_eq (x y : tensor) : Prop := forall i, (x i == y i)%Q.

Definition tadd (x y : tensor) : tensor := fun i => (x i + y i)%Q.
Definition tsub (x y : tensor) : tensor := fun i => (x i - y i)%Q.

(** [x * c] and [x / c] for a scalar [c]. *)
Definition tmulc (x : tensor) (c : Q) : tensor := fun i => (x i * c)%Q.
Definition tdivc (x : tensor) (c : Q) : tensor := fun i => (x i / c)%Q.

(** The scalar [0] that [dict.get(k, 0)] falls back to, broadcast. *)
Definition tzero : tensor := fun _ => 0%Q.

(** [ctx.add_to_prefix(name)] is defined in [src/context.py]: it is a
    parameter here.  It returns the derived context, whose name cache
    carries the bumped counter. *)
Variable add_to_prefix : Context tensor -> string -> Context tensor.

(** A function plugged into [reversible], called as
    [fn(new_ctx, inp, depth_index)]: its output together with the context
    object as the call leaves it. *)
Definition rev_fn : Type :=
  Context tensor -> tensor -> Z -> tensor * Context tensor.

(** A model-body block ([conv_block], [feed_forward]): [fn(ctx, inp)]. *)
Definition body_fn : Type := Context tensor -> tensor -> tensor * Context tensor.

(** [REVERSIBLE_CTX]: [(params, x0, x0_backup, x1, x1_backup)]. *)
Definition REVERSIBLE_CTX : Type :=
  (gmap string tensor * tensor * tensor * tensor * tensor)%type.

(** The inner [base(params, inp)] of [reversible]: restore the saved name
    cache, derive the sub-context, install [params], run [fn], and write
    the resulting name cache back to [ctx]. *)
Definition base (ctx : Context tensor) (saved : gmap string Z) (fn : rev_fn)
    (params : gmap string tensor) (inp : tensor) : tensor * Context tensor :=
  let ctx1 := set_name_cache ctx saved in
  let new_ctx := set_parameters (add_to_prefix ctx1 "reversible") params in
  let '(out, new_ctx') := fn new_ctx inp (depth_index new_ctx) in
  (out, set_name_cache ctx1 (name_cache new_ctx')).

(** [reversible(ctx, fn, src)]: the tuple returned and the context
    afterwards. *)
Definition reversible (ctx : Context tensor) (fn : rev_fn) (src : REVERSIBLE_CTX)
    : REVERSIBLE_CTX * Context tensor :=
  if is_initializing ctx then
    let '(params, x00, x01, x10, x11) := src in
    let new_ctx := set_parameters (add_to_prefix ctx "reversible") params in
    let '(out, new_ctx') := fn new_ctx x10 (depth_index new_ctx) in
    let ctx' :=
      mkContext (is_initializing ctx) (parameters new_ctx')
                (parameter_variance new_ctx') (parameter_dims new_ctx')
                (name_cache new_ctx') (prng_key new_ctx') (depth_index ctx)
                (name_prefix ctx) (model ctx) in
    ((parameters new_ctx', x10, x11, out, x01), ctx')
  else
    let '(params, x0, back_x0, x1, back_x1) := src in
    let '(fx, ctx') := base ctx (name_cache ctx) fn params x1 in
    let out := tadd fx x0 in
    ((params, x1, x1, out, out), ctx').

(** [jax.vjp(base, params, y0)] returns the primal output
    [base(params, y0)] and the pullback; the pullback (the reverse-mode
    derivative of the block) is JAX's and enters as a parameter. *)
Variable pullback :
  (gmap string tensor -> tensor -> tensor) ->
  gmap string tensor -> tensor -> tensor -> gmap string tensor * tensor.

Definition jax_vjp (g : gmap string tensor -> tensor -> tensor)
    (params : gmap string tensor) (y0 : tensor)
    : tensor * (tensor -> gmap string tensor * tensor) :=
  (g params y0, pullback g params y0).

(** [{k: d_params_old.get(k, 0) + d_params.get(k, 0) for k in d_params.keys()}] *)
Definition merge_grads (d_params_old d_params : gmap string tensor)
    : gmap string tensor :=
  map_imap (fun k v => Some (tadd (default tzero (d_params_old !! k)) v)) d_params.

(** The backward rule [_grad(dy)] of the executing-mode step.  [ctx] is the
    context object when the rule runs and [saved] the name cache copied
    when [reversible] was entered. *)
Definition reversible_grad (ctx : Context tensor) (saved : gmap string Z)
    (fn : rev_fn) (params : gmap string tensor) (dy : REVERSIBLE_CTX)
    : REVERSIBLE_CTX :=
  let '(d_params_old, dy0, y0, dy1, y1) := dy in
  let '(x0, grad_fn) :=
    jax_vjp (fun p i => fst (base ctx saved fn p i)) params y0 in
  let '(d_params, dx0) := grad_fn dy1 in
  (merge_grads d_params_old d_params, dy1, tsub y1 x0, tadd dx0 dy0, y0).

(** [momentumnet_main(ctx, fn)] *)
Definition momentumnet_main (ctx : Context tensor) (fn : body_fn) : rev_fn :=
  fun sub_ctx x idx =>
    fn sub_ctx
       (tdivc (tmulc x (1 - momentumnet_beta (model ctx)))
              (momentumnet_beta (model ctx) ^ Int32.add idx 1)).

(** [momentumnet_side(ctx)] *)
Definition momentumnet_side (ctx : Context tensor) : rev_fn :=
  fun _ignored x idx => (tmulc x (momentumnet_beta (model ctx) ^ idx), _ignored).

(** [revnet_out(src)]: the value, and the backward rule [_grad(dy)]. *)
Definition revnet_out (src : tensor * tensor * tensor * tensor) : tensor :=
  let '(x0, x0_back, x1, x1_back) := src in tadd x0 x1.

Definition revnet_out_grad (src : tensor * tensor * tensor * tensor) (dy : tensor)
    : tensor * tensor * tensor * tensor :=
  let '(x0, x0_back, x1, x1_back) := src in (dy, x0, dy, x1).

(** The two model-body blocks used by [block]; their bodies (convolution,
    normalisation, matrix products) play no role in the engine. *)
Variable conv_block feed_forward : body_fn.

(** [block(ctx)._fn(inp)] *)
Definition block (ctx : Context tensor) (inp : REVERSIBLE_CTX * Z)
    : (REVERSIBLE_CTX * Z) * Context tensor :=
  let '(src, idx) := inp in
  let ctx := set_depth_index ctx idx in
  let '(src, ctx) := reversible ctx (momentumnet_main ctx conv_block) src in
  let '(src, ctx) := reversible ctx (momentumnet_side ctx) src in
  let ctx := set_depth_index ctx (Int32.add (depth_index ctx) 1) in
  let '(src, ctx) := reversible ctx (momentumnet_main ctx feed_forward) src in
  let '(src, ctx) := reversible ctx (momentumnet_side ctx) src in
  ((src, Int32.add (depth_index ctx) 1), ctx).

(** [loop(block(ctx), inp, steps)]: [lax.scan] applies the body [steps]
    times to the carry. *)
Fixpoint loop (steps : nat) (ctx : Context tensor) (inp : REVERSIBLE_CTX * Z)
    : (REVERSIBLE_CTX * Z) * Context tensor :=
  match steps with
  | O => (inp, ctx)
  | S n => let '(carry, ctx') := block ctx inp in loop n ctx' carry
  end.

(** The four rail components of a state, as handed to [revnet_out]
    ([src[1:]]). *)
Definition rails (s : REVERSIBLE_CTX) : tensor * tensor * tensor * tensor :=
  let '(_, x0, x0_back, x1, x1_back) := s in (x0, x0_back, x1, x1_back).

(** Each rail equals its own backup copy. *)
Definition rails_backed_up (s : tensor * tensor * tensor * tensor) : Prop :=
  let '(x0, x0_back, x1, x1_back) := s in x0 = x0_back /\ x1 = x1_back.

End Engine.

Arguments tensor_eq {index}.
Arguments tadd {index}.
Arguments tsub {index}.
Arguments tmulc {index}.
Arguments tdivc {index}.
Arguments tzero {index}.
Arguments base {index}.
Arguments reversible {index}.
Arguments jax_vjp {index}.
Arguments merge_grads {index}.
Arguments reversible_grad {index}.
Arguments momentumnet_main {index}.
Arguments momentumnet_side {index}.
Arguments revnet_out {index}.
Arguments revnet_out_grad {index}.
Arguments block {index}.
Arguments loop {index}.
Arguments rails {index}.
Arguments rails_backed_up {index}.

(** ** The parameter store ([src/backend.py]) *)

(** A stored array: its shape and its entries in row-major order. *)
Record ndarray : Type := mk_ndarray {
  nd_shape : list nat;
  nd_data : list Q
}.

Definition nd_map (f : Q -> Q) (a : ndarray) : ndarray :=
  mk_ndarray (nd_shape a) (map f (nd_data a)).

Section ParameterStore.

(** Rounding of one entry to a floating-point type ([ndarray.astype]). *)
Variable cast : dtype -> Q -> Q.

Definition astype (a : ndarray) (d : dtype) : ndarray := nd_map (cast d) a.

(** [prefixed_name(ctx, name)] is
    [ctx.add_to_prefix(name, count=False).global_prefix], both defined in
    [src/context.py]: a parameter here. *)
Variable prefixed_name : Context ndarray -> string -> string.

(** [jax.random.split] and [jax.random.normal]. *)
Variable random_split : Z -> Z * Z.
Variable random_normal : Z -> list nat -> dtype -> ndarray.

(** [assign(ctx, name, inp)] *)
Definition assign (ctx : Context ndarray) (name : string) (inp : ndarray)
    : Context ndarray :=
  set_parameters ctx (<[prefixed_name ctx name := inp]> (parameters ctx)).

(** [normal(ctx, shape)] *)
Definition normal (ctx : Context ndarray) (shape : list nat)
    : ndarray * Context ndarray :=
  let '(new_key, key) := random_split (prng_key ctx) in
  (random_normal key shape (storage_dtype (model ctx)), set_prng_key ctx new_key).

(** [orthogonal_init(ctx, shape, column_axes)]: the QR-based construction
    is numerical linear algebra on the draw of [normal]; it enters as a
    parameter and, like the source, threads the generator state. *)
Variable orthogonal_init :
  Context ndarray -> list nat -> nat -> ndarray * Context ndarray.

(** [get_param(ctx, name, shape, std, mean, column_axes, scale,
    post_variance_scale, lr_scale, dtype, init_val)].  [shape = None] on a
    fresh name makes [len(shape)] (or the draw) fail with a [TypeError]. *)
Definition get_param (ctx : Context ndarray) (name : string)
    (shape : option (list nat)) (std mean : option Q) (column_axes : nat)
    (scale post_variance_scale lr_scale : Q) (dt : option dtype)
    (init_val : option ndarray) : result (ndarray * Context ndarray) :=
  let prefix_name := prefixed_name ctx name in
  let computation := default (computation_dtype (model ctx)) dt in
  let storage := default (storage_dtype (model ctx)) dt in
  match parameters ctx !! prefix_name with
  | Some param => Returned (astype param computation, ctx)
  | None =>
    let fresh : result (ndarray * Context ndarray) :=
      match init_val, std, mean, shape with
      | Some v, _, _, _ =>
          Returned (nd_map (fun q => q * scale * post_variance_scale)%Q v, ctx)
      | None, None, None, Some sh =>
          let '(p, c) := orthogonal_init ctx sh column_axes in
          Returned (nd_map (fun q => q * (scale * post_variance_scale))%Q p, c)
      | None, _, _, Some sh =>
          let '(p, c) := normal ctx sh in
          let p := nd_map (fun q => q * scale)%Q p in
          let p := match std with Some s => nd_map (fun q => q * s)%Q p | None => p end in
          let p := match mean with Some m => nd_map (fun q => q + m)%Q p | None => p end in
          Returned (p, c)
      | None, _, _, None => Raised TypeError
      end in
    match fresh with
    | Raised e => Raised e
    | Returned (param, c) =>
        let c := set_parameter_variance c
                   (<[prefix_name := (lr_scale * scale)%Q]> (parameter_variance c)) in
        let param := astype param storage in
        let c := assign c name param in
        match parameters c !! prefix_name with
        | Some stored => Returned (astype stored computation, c)
        | None => Raised KeyError
        end
    end
  end.

End ParameterStore.

(** ** The collective layer ([src/model.py], over [jax.lax]) *)

(** A value inside the model-parallel group: every worker holds an array
    of the same shape (SPMD), one row-major buffer per worker, in worker
    order. *)
Record pvalue : Type := mk_pvalue {
  pv_shape : list nat;
  pv_data : list (list Q)
}.

Definition shape_size (shape : list nat) : nat := fold_right Nat.mul 1%nat shape.

Definition group_size (v : pvalue) : nat := length (pv_data v).

(** Every worker's buffer has as many entries as the shape has positions. *)
Definition pv_wf (v : pvalue) : Prop :=
  Forall (fun d => length d = shape_size (pv_shape v)) (pv_data v).

Fixpoint vadd (a b : list Q) : list Q :=
  match a, b with
  | x :: a', y :: b' => (x + y)%Q :: vadd a' b'
  | _, _ => []
  end.

(** The element-wise sum over the group of buffers of [n] entries. *)
Definition group_sum (n : nat) (bufs : list (list Q)) : list Q :=
  fold_right vadd (repeat 0%Q n) bufs.

(** The [i]-th of the consecutive chunks of [c] entries. *)
Definition chunk (c i : nat) (l : list Q) : list Q := firstn c (skipn (i * c) l).

(** [lax.psum_scatter(x, axis)] with its defaults ([scatter_dimension=0],
    [tiled=False]): the leading dimension must equal the group size; the
    sum over the group is cut along it, worker [i] keeps slice [i], and the
    dimension is dropped from the result.  Anything else is JAX's shape
    error. *)
Definition lax_psum_scatter (x : pvalue) : result pvalue :=
  match pv_shape x with
  | [] => Raised ValueError
  | d0 :: rest =>
      if (d0 =? group_size x)%nat then
        let total := group_sum (shape_size (pv_shape x)) (pv_data x) in
        Returned (mk_pvalue rest
                    (map (fun i => chunk (shape_size rest) i total)
                         (seq 0 (group_size x))))
      else Raised ValueError
  end.

(** [lax.all_gather(x, axis)] with its defaults: every worker receives the
    stack of all workers' arrays along a new leading dimension. *)
Definition lax_all_gather (x : pvalue) : pvalue :=
  mk_pvalue (group_size x :: pv_shape x)
            (map (fun _ => concat (pv_data x)) (pv_data x)).

(** [x.reshape(shape)]: same buffer, new shape, when the sizes agree. *)
Definition reshape (x : pvalue) (shape : list nat) : result pvalue :=
  if (shape_size shape =? shape_size (pv_shape x))%nat
  then Returned (mk_pvalue shape (pv_data x))
  else Raised TypeError.

(** [psum_scatter(inp)]: the forward value with the backward rule [_grad]
    that [jax.custom_gradient] attaches to it. *)
Definition psum_scatter (inp : pvalue)
    : result (pvalue * (pvalue -> result pvalue)) :=
  match lax_psum_scatter inp with
  | Raised e => Raised e
  | Returned y =>
      Returned (y, fun out => reshape (lax_all_gather out) (pv_shape inp))
  end.

(** ** Token embedding ([src/model.py]) *)

(** [jnp.arange(0, size)] *)
Definition arange (size : Z) : list Z := map Z.of_nat (seq 0 (Z.to_nat size)).

(** [one_hot(inp, size)] on a sequence of token ids: one row of booleans
    per token, entry [j] telling whether the token equals [j]. *)
Definition one_hot (inp : list Z) (size : Z) : list (list bool) :=
  map (fun t => map (fun j => Z.eqb t j) (arange size)) inp.

(** [.astype(computation_dtype)] of a boolean: [True] is one, [False] zero. *)
Definition bool_to_Q (b : bool) : Q := if b then 1%Q else 0%Q.

Definition vscale (c : Q) (row : list Q) : list Q := map (Qmult c) row.

(** One row of [matmul(left, right)]: the entries of [l] weight the rows of
    [right]; [width] is the row length of [right]. *)
Fixpoint row_times (width : nat) (l : list Q) (right : list (list Q)) : list Q :=
  match l, right with
  | c :: l', r :: right' => vadd (vscale c r) (row_times width l' right')
  | _, _ => repeat 0%Q width
  end.

(** [matmul(left, right)] contracts the last axis of [left] with the first
    of [right]; [lax.dot_general] rejects operands whose contracted sizes
    differ. *)
Definition matmul (width : nat) (left right : list (list Q))
    : result (list (list Q)) :=
  if forallb (fun l => (length l =? length right)%nat) left
  then Returned (map (fun l => row_times width l right) left)
  else Raised TypeError.

(** A row all of whose entries are zero. *)
Definition all_zero (v : list Q) : Prop := Forall (fun q => (q == 0)%Q) v.

Inductive embedded : Type :=
| Tokens (inp : list Z)                 (* initialising: the input itself *)
| Embedding (rows : list (list Q)).

(** [input_embed(ctx, inp)] once [get_param] has produced [inp_embd], a
    table of rows of [width] entries. *)
Definition input_embed (initializing : bool) (vocab_size : Z) (width : nat)
    (inp_embd : list (list Q)) (inp : list Z) : result embedded :=
  if initializing then Returned (Tokens inp)
  else
    match matmul width (map (map bool_to_Q) (one_hot inp vocab_size)) inp_embd with
    | Returned rows => Returned (Embedding rows)
    | Raised e => Raised e
    end.

(** ** Training and logging configuration ([ctx.training], [ctx.wandb]) *)

Record EarlyStopping : Type := mkEarlyStopping {
  minimum_relative_loss_change : Q;
  maximum_spike_size : Q;
  maximum_spike_duration : Z
}.

Record Training : Type := mkTraining {
  device_steps : Z;
  loss_top_p : Q;
  loss_top_snap : Z;
  early_stopping : EarlyStopping
}.

Record WandB : Type := mkWandB {
  log_frequency : Z;
  median_sizes : list Z
}.

Definition with_loss_top_p (t : Training) (p : Q) : Training :=
  mkTraining (device_steps t) p (loss_top_snap t) (early_stopping t).

(** ** Loss truncation ([compute] in [src/model.py]) *)

(** [math.ceil(batch * loss_top_p / loss_top_snap) * loss_top_snap] *)
Definition top_k_of (batch : Z) (t : Training) : Z :=
  (Qceiling (inject_Z batch * loss_top_p t / inject_Z (loss_top_snap t))
   * loss_top_snap t)%Z.

(** How many per-example losses the reported top loss is averaged over:
    the divisor of the branch [compute] takes. *)
Definition top_count (batch : Z) (t : Training) : Z :=
  let top_k := top_k_of batch t in
  if Qlt_bool (loss_top_p t) 1 && (top_k <? batch)%Z then top_k else batch.

(** The mean of the [k] largest entries of [l]. *)
Definition mean_of_worst (k : Z) (l : list Q) : Q :=
  (Qsum (firstn (Z.to_nat k) (sort_desc l)) / inject_Z k)%Q.

(** [compute(params, inp)] from the point where
    [unreduced_loss = cross_entropy_loss(ctx, body_ctx(ctx, src), tgt)] is
    known; [batch] is [ctx.dims.sizes.batch].  The pair returned is
    [(top_loss, loss)].  (With [batch = 0] the source divides by zero into
    [nan], which the rationals do not have.) *)
Definition compute (t : Training) (batch : Z) (unreduced_loss : list Q)
    : result (Q * Q) :=
  let loss := (Qsum unreduced_loss / inject_Z batch)%Q in
  if (loss_top_snap t =? 0)%Z then Raised ZeroDivisionError
  else
    let top_k := top_k_of batch t in
    if Qlt_bool (loss_top_p t) 1 && (top_k <? batch)%Z then
      match lax_top_k unreduced_loss top_k with
      | Returned top => Returned ((Qsum top / inject_Z top_k)%Q, loss)
      | Raised e => Raised e
      end
    else Returned (loss, loss).

(** ** The streaming monitor ([src/utils/wandblog.py]) *)

(** The attributes of a [WandbLog] object ([start_time] is wall-clock time
    and only feeds the reported rate). *)
Record WandbLog : Type := mkWandbLog {
  run : bool;                 (* whether a tracking run is attached *)
  losses : list Q;
  accuracies : list Q;
  idx : Z;
  loss_medians : list Q
}.

(** [WandbLog.__init__(run)] *)
Definition WandbLog_init (r : bool) : WandbLog := mkWandbLog r [] [] 0 [].

(** What a call hands back: [True] with one of the two printed reasons, or
    [False], after logging the per-window medians of losses and accuracies
    when a run is attached. *)
Inductive verdict : Type :=
| NotImproving
| Spiking
| Continue (logged : option (list (Z * Q) * list (Z * Q))).

Definition verdict_bool (v : verdict) : bool :=
  match v with
  | NotImproving | Spiking => true
  | Continue _ => false
  end.

(** [WandbLog.__call__(wctx, current_lr)], with [loss] and [top_loss] the
    accumulated [wctx.loss] and [wctx.top_loss]: the object afterwards and
    the outcome of the call.  The step number and the rate only label what
    is logged and are left out.  A zero [device_steps] stops the call at
    the integer division of the window sizes (were there no median sizes
    to divide, the source would append infinities, which the rationals do
    not have, and stop at [max] instead). *)
Definition WandbLog_call (t : Training) (w : WandB) (self : WandbLog)
    (loss top_loss : Q) : WandbLog * result verdict :=
  let idx' := (idx self + 1)%Z in
  let ds := device_steps t in
  if (ds =? 0)%Z then
    (mkWandbLog (run self) (losses self) (accuracies self) idx' (loss_medians self),
     Raised ZeroDivisionError)
  else
    let curr_loss := (loss / inject_Z ds)%Q in
    let sizes := map (fun s => (s / ds)%Z) (median_sizes w) in
    let losses1 := losses self ++ [curr_loss] in
    let accuracies1 := accuracies self ++ [(top_loss / inject_Z ds)%Q] in
    match py_max sizes with
    | None =>
        (mkWandbLog (run self) losses1 accuracies1 idx' (loss_medians self),
         Raised ValueError)
    | Some m =>
        let medians1 := loss_medians self ++ [median (py_slice_from (- m) losses1)] in
        let losses2 := py_slice_from (- m) losses1 in
        let accuracies2 := py_slice_from (- m) accuracies1 in
        let medians2 := py_slice_from (- m) medians1 in
        let self' := mkWandbLog (run self) losses2 accuracies2 idx' medians2 in
        let es := early_stopping t in
        match head medians2, last medians2 with
        | Some oldest, Some newest =>
            if Qlt_bool oldest (newest * (1 - minimum_relative_loss_change es))
            then (self', Returned NotImproving)
            else if forallb (fun l => Qlt_bool (newest * maximum_spike_size es) l)
                      (py_slice_from ((- maximum_spike_duration es) / ds) losses2)
            then (self', Returned Spiking)
            else if negb (run self) then (self', Returned (Continue None))
            else
              (self',
               Returned (Continue (Some
                 (map (fun s => ((s * ds)%Z, median (py_slice_from (- s) losses2))) sizes,
                  map (fun s => ((s * ds)%Z, median (py_slice_from (- s) accuracies2))) sizes))))
        | _, _ => (self', Raised IndexError)
        end
    end.

(** Feeding a sequence of [(loss, top_loss)] readings, one call each; the
    outcomes are listed in call order. *)
Fixpoint feed (t : Training) (w : WandB) (self : WandbLog) (readings : list (Q * Q))
    : WandbLog * list (result verdict) :=
  match readings with
  | [] => (self, [])
  | (loss, top_loss) :: rest =>
      let '(self1, out) := WandbLog_call t w self loss top_loss in
      let '(self2, outs) := feed t w self1 rest in
      (self2, out :: outs)
  end.


(** ** Axis arithmetic ([src/backend.py]) *)

Definition and_then {A B : Type} (r : result A) (k : A -> result B) : result B :=
  match r with
  | Returned a => k a
  | Raised e => Raised e
  end.

(** A list comprehension over a fallible function: the first failure
    wins. *)
Fixpoint result_map {A B : Type} (f : A -> result B) (l : list A) : result (list B) :=
  match l with
  | [] => Returned []
  | x :: t =>
      and_then (f x) (fun y => and_then (result_map f t) (fun ys => Returned (y :: ys)))
  end.

(** [range(a, b)] *)
Definition py_range (a b : Z) : list Z :=
  map (fun i => (a + Z.of_nat i)%Z) (seq 0 (Z.to_nat (b - a))).

(** [l[c]] for a Python sequence: a negative index counts from the end,
    anything outside is an [IndexError]. *)
Definition py_getitem {A : Type} (l : list A) (c : Z) : result A :=
  let n := Z.of_nat (length l) in
  let i := if (c <? 0)%Z then (c + n)%Z else c in
  if ((0 <=? i) && (i <? n))%Z then
    match nth_error l (Z.to_nat i) with
    | Some x => Returned x
    | None => Raised IndexError
    end
  else Raised IndexError.

(** What is handed where [INT_OR_TUPLE] is expected: an int, a tuple or list
    of ints, or something else. *)
Inductive int_or_tuple : Type :=
| AnInt (z : Z)
| ATuple (l : list Z)
| AnotherObject.

(** [tuple_int(obj)] *)
Definition tuple_int (obj : int_or_tuple) : result (list Z) :=
  match obj with
  | ATuple l => Returned l
  | AnInt z => Returned [z]
  | AnotherObject => Raised ValueError
  end.

(** [pos_dim(inp, dims)], with [ndim] the rank of [inp]: Python's [%]
    takes the sign of the divisor and fails on a zero divisor. *)
Definition pos_dim (ndim : Z) (dims : list Z) : result (list Z) :=
  match dims with
  | [] => Returned []
  | _ => if (ndim =? 0)%Z then Raised ZeroDivisionError
         else Returned (map (fun d => (d mod ndim)%Z) dims)
  end.

(** The [dims] that [dot] hands to [lax.dot_general]: contracting and batch
    axes of the two operands, whose ranks are [nl] and [nr]. *)
Definition dot_dimension_numbers (nl nr : Z)
    (left_contract right_contract left_batch right_batch : int_or_tuple)
    : result ((list Z * list Z) * (list Z * list Z)) :=
  and_then (and_then (tuple_int left_contract) (pos_dim nl)) (fun lc =>
  and_then (and_then (tuple_int right_contract) (pos_dim nr)) (fun rc =>
  and_then (and_then (tuple_int left_batch) (pos_dim nl)) (fun lb =>
  and_then (and_then (tuple_int right_batch) (pos_dim nr)) (fun rb =>
  Returned ((lc, rc), (lb, rb)))))).

(** The [dims] of [matmul(left, right, reduced_dims)]. *)
Definition matmul_dimension_numbers (nl nr reduced_dims : Z)
    : result ((list Z * list Z) * (list Z * list Z)) :=
  dot_dimension_numbers nl nr
    (ATuple (py_range (- reduced_dims) 0)) (ATuple (py_range 0 reduced_dims))
    (ATuple []) (ATuple []).

Record ConvDimensionNumbers : Type := mkConvDimensionNumbers {
  lhs_spec : list Z;
  rhs_spec : list Z;
  out_spec : list Z
}.

(** The layout that [conv] builds from the rank [ndim] of the weight. *)
Definition conv_dimension_numbers (ndim : Z) : ConvDimensionNumbers :=
  let dimension_numbers := ([0; ndim - 1] ++ py_range 1 (ndim - 1))%Z in
  mkConvDimensionNumbers dimension_numbers (py_range 0 ndim) dimension_numbers.

(** [(1,) * (ndim - 2)], the window strides of [conv]. *)
Definition conv_window_strides (ndim : Z) : list Z :=
  repeat 1%Z (Z.to_nat (ndim - 2)).

(** ** The shapes inside [orthogonal_init] ([src/backend.py]) *)

(** [np.delete(shape, column_axes)] for indices that [shape[c]] accepted:
    the entries whose position is none of the (normalised) indices. *)
Definition np_delete (shape : list nat) (column_axes : list Z) : list nat :=
  let n := Z.of_nat (length shape) in
  let positions := map (fun c => if (c <? 0)%Z then (c + n)%Z else c) column_axes in
  map snd
      (List.filter (fun p => negb (existsb (Z.eqb (Z.of_nat (fst p))) positions))
              (combine (seq 0 (length shape)) shape)).

(** What [orthogonal_init] computes around the QR factorisation: the shape
    of the Gaussian matrix it draws, whether the orthogonal factor is
    transposed, and the shape the result is reshaped to. *)
Record orthogonal_shapes : Type := mkOrthogonalShapes {
  matrix_shape : nat * nat;
  transposed : bool;
  target_shape : list nat
}.

Definition orthogonal_init_shapes (shape : list nat) (column_axes : list Z)
    : result orthogonal_shapes :=
  and_then (result_map (py_getitem shape) column_axes) (fun axes =>
    let n_cols := shape_size axes in
    if (n_cols =? 0)%nat then Raised ZeroDivisionError
    else
      let n_rows := (shape_size shape / n_cols)%nat in
      Returned
        (mkOrthogonalShapes
           (if (n_cols <? n_rows)%nat then (n_rows, n_cols) else (n_cols, n_rows))
           (n_rows <? n_cols)%nat
           (np_delete shape column_axes ++ axes))).

(** The column axes [get_param] asks for:
    [range(len(shape) - column_axes, len(shape))]. *)
Definition column_range (shape : list nat) (column_axes : Z) : list Z :=
  py_range (Z.of_nat (length shape) - column_axes) (Z.of_nat (length shape)).

(** ** [zero_param] ([src/backend.py]) *)

Section ZeroParam.

Variable cast : dtype -> Q -> Q.
Variable prefixed_name : Context ndarray -> string -> string.
Variable random_split : Z -> Z * Z.
Variable random_normal : Z -> list nat -> dtype -> ndarray.
Variable orthogonal_init :
  Context ndarray -> list nat -> nat -> ndarray * Context ndarray.

(** [zero_param(ctx, name, shape, dtype)] *)
Definition zero_param (ctx : Context ndarray) (name : string) (shape : list nat)
    (dt : option dtype) : result (ndarray * Context ndarray) :=
  get_param cast prefixed_name random_split random_normal orthogonal_init
            ctx name (Some shape) (Some 0%Q) (Some 0%Q) 1 1%Q 1%Q 1%Q dt None.

End ZeroParam.

(** ** The normalisation function ([_fn] inside [normalize], [src/model.py]) *)

Fixpoint vsub (a b : list Q) : list Q :=
  match a, b with
  | x :: a', y :: b' => (x - y)%Q :: vsub a' b'
  | _, _ => []
  end.

Fixpoint vmul (a b : list Q) : list Q :=
  match a, b with
  | x :: a', y :: b' => (x * y)%Q :: vmul a' b'
  | _, _ => []
  end.

(** [row.mean()] *)
Definition row_mean (row : list Q) : Q :=
  (Qsum row / inject_Z (Z.of_nat (length row)))%Q.

(** [src - src.mean(-1, keepdims=True)] on one row of features. *)
Definition centre (row : list Q) : list Q :=
  map (fun x => (x - row_mean row)%Q) row.

Section Normalize.

(** [norm(ctx, out, -1, True) * src.shape[-1] ** -0.5] of a centred row: a
    reciprocal square root, which the rationals do not have; it enters as
    a parameter. *)
Variable norm_scale : list Q -> Q.

(** The value [_fn(src, param)] returns: [src] is a list of feature rows,
    [param] the single learned scalar. *)
Definition normalize_fn (src : list (list Q)) (param : Q) : list (list Q) :=
  map (fun row => map (fun x => (x * param)%Q) (centre row)) src.

(** [_grad(dy)] on one row: the gradient for [src]. *)
Definition normalize_row_grad (param : Q) (row dy : list Q) : list Q :=
  let centred := centre row in
  let scale := norm_scale centred in
  let out := map (fun x => (x * param)%Q) centred in
  let dy := map (fun g => (g * (scale * param))%Q) dy in
  let dy := vsub dy (map (fun o => (row_mean (vmul dy out) * o)%Q) out) in
  map (fun g => (g - row_mean dy)%Q) dy.

(** [(scaled * dy).sum()] over one row. *)
Definition normalize_row_d_scale (row dy : list Q) : Q :=
  let centred := centre row in
  Qsum (vmul (map (fun x => (x * norm_scale centred)%Q) centred) dy).

(** [_grad(dy)]: the gradients for [src] and for [param]. *)
Definition normalize_grad (src : list (list Q)) (param : Q) (dy : list (list Q))
    : list (list Q) * Q :=
  (map (fun p => normalize_row_grad param (fst p) (snd p)) (combine src dy),
   Qsum (map (fun p => normalize_row_d_scale (fst p) (snd p)) (combine src dy))).

End Normalize.

(** A block function that maps entry-wise equal tensors to entry-wise equal
    tensors. *)
Definition respects_tensor_eq {index : Type} (fn : rev_fn index) : Prop :=
  forall c (x y : tensor index) d,
    tensor_eq x y -> tensor_eq (fst (fn c x d)) (fst (fn c y d)).

(** ** The training step ([src/main.py]) *)

(** [loop(fn, fn_input, steps)] on a body that may raise: the first
    failure ends the scan. *)
Fixpoint loop_result {A : Type} (fn : A -> result A) (steps : nat) (fn_input : A)
    : result A :=
  match steps with
  | O => Returned fn_input
  | S n => and_then (fn fn_input) (loop_result fn n)
  end.

Section TrainStep.

(** Parameter dictionaries, gradients, the batch of one device step, the
    stacked batches of one call and the step counter (a [jnp] scalar):
    their representations are set by modules outside the sources. *)
Variables params grads datum data step : Type.

(** [cross_entropy_loss(ctx, body_ctx(ctx, src), tgt)] inside [compute]:
    the per-example losses of a batch under given parameters. *)
Variable unreduced_loss : params -> datum -> list Q.

(** The gradients [jax.value_and_grad(compute, 0, True)] returns beside
    the value. *)
Variable grad_of : params -> datum -> grads.

(** [update(ctx, grads, current_step)] of [src/optimizer.py], on
    [ctx.parameters]. *)
Variable update : params -> grads -> step -> params.

(** [wctx.data[wctx.current_step % device_steps]] *)
Variable data_at : data -> step -> Z -> datum.

(** [current_step + 1] *)
Variable next_step : step -> step.

(** The training configuration of the fresh [Context()] that [compute]
    builds, its [dims.sizes.batch], and [wctx.ctx.training.device_steps]. *)
Variable compute_training : Training.
Variable batch : Z.
Variable wctx_device_steps : Z.

Record WhileTrainContext : Type := mkWhileTrainContext {
  wctx_parameters : params;
  wctx_data : data;
  wctx_loss : Q;
  wctx_top_loss : Q;
  wctx_current_step : step
}.

(** [WhileTrainContext.__call__(dat)] *)
Variable with_data : WhileTrainContext -> data -> WhileTrainContext.

(** [train_step(while_ctx_dict)].  [compute] returns [(top_loss, loss)];
    with [has_aux] set its first component is the differentiated value,
    which is unpacked as [loss], and its second as [accuracy]. *)
Definition train_step (wctx : WhileTrainContext) : result WhileTrainContext :=
  let d := data_at (wctx_data wctx) (wctx_current_step wctx) wctx_device_steps in
  and_then (compute compute_training batch (unreduced_loss (wctx_parameters wctx) d))
    (fun value =>
       let '(loss, accuracy) := value in
       Returned (mkWhileTrainContext
                   (update (wctx_parameters wctx)
                           (grad_of (wctx_parameters wctx) d)
                           (wctx_current_step wctx))
                   (wctx_data wctx)
                   (wctx_loss wctx + loss)%Q
                   (wctx_top_loss wctx + accuracy)%Q
                   (next_step (wctx_current_step wctx)))).

(** [jitless_step(while_ctx_dict)] (a negative step count is outside the
    model). *)
Definition jitless_step (wctx : WhileTrainContext) : result WhileTrainContext :=
  loop_result train_step (Z.to_nat wctx_device_steps) wctx.

(** [train_loop(wctx, step)._fn(dat)] with [step] running [jitless_step]:
    the context the closure stores and returns. *)
Definition train_loop_fn (wctx : WhileTrainContext) (dat : data)
    : result WhileTrainContext :=
  let w := with_data wctx dat in
  let w := mkWhileTrainContext (wctx_parameters w) (wctx_data w) 0%Q 0%Q
                               (next_step (wctx_current_step w)) in
  jitless_step w.

End TrainStep.

Arguments mkWhileTrainContext {params data step}.
Arguments wctx_parameters {params data step}.
Arguments wctx_data {params data step}.
Arguments wctx_loss {params data step}.
Arguments wctx_top_loss {params data step}.
Arguments wctx_current_step {params data step}.
Arguments train_step {params grads datum data step}.
Arguments jitless_step {params grads datum data step}.
Arguments train_loop_fn {params grads datum data step}.

(** ** Notions used in the statements and proofs of Part II *)

(** The mean of the first [k] entries. *)
Definition prefix_mean (s : list Q) (k : nat) : Q :=
  (Qsum (firstn k s) / inject_Z (Z.of_nat k))%Q.

Definition nonnegative (l : list Q) : Prop := Forall (fun y => (0 <= y)%Q) l.

(** The shape of the monitor's state while strictly decreasing readings
    arrive: the loss window is strictly decreasing and holds at most [n]
    non-negative readings, the medians are non-negative and never rise,
    and the newest median is the median of the current window. *)
Definition decreasing_run (n : nat) (self : WandbLog) : Prop :=
  strictly_decreasing (losses self) /\
  nonnegative (losses self) /\
  (length (losses self) <= n)%nat /\
  descending (loss_medians self) /\
  nonnegative (loss_medians self) /\
  ((losses self = [] /\ loss_medians self = []) \/
   (losses self <> [] /\ last (loss_medians self) = Some (median (losses self)))).

(** ** Sample inputs

    Small concrete instances on which the theorems of Part II are
    evaluated. *)

Module Sample.

(** A one-position tensor shape. *)
Definition const (q : Q) : tensor unit := fun _ => q.

Definition the_model : Model := mkModel (1 # 2) float32 bfloat16.

Definition ctx : Context (tensor unit) :=
  mkContext false ∅ ∅ ∅ ∅ 0%Z 0%Z [] the_model.

Definition add_to_prefix (c : Context (tensor unit)) (name : string)
    : Context (tensor unit) :=
  mkContext (is_initializing c) (parameters c) (parameter_variance c)
            (parameter_dims c) (<[name := 0%Z]> (name_cache c)) (prng_key c)
            (depth_index c) (name_prefix c ++ [name]) (model c).

Definition pullback (g : gmap string (tensor unit) -> tensor unit -> tensor unit)
    (p : gmap string (tensor unit)) (y dy : tensor unit)
    : gmap string (tensor unit) * tensor unit := (p, dy).

(** A block that doubles its input. *)
Definition double : body_fn unit := fun c x => (tmulc x 2, c).

Definition double_rev : rev_fn unit := fun c x _ => (tmulc x 2, c).

End Sample.

Module SampleStore.

Definition cast (d : dtype) (q : Q) : Q := q.

Definition prefixed_name (c : Context ndarray) (name : string) : string :=
  fold_right (fun p acc => String.append p (String.append "/" acc)) name (name_prefix c).

Definition random_split (k : Z) : Z * Z := ((2 * k)%Z, (2 * k + 1)%Z).

Definition random_normal (k : Z) (shape : list nat) (d : dtype) : ndarray :=
  mk_ndarray shape (repeat (inject_Z k) (fold_right Nat.mul 1%nat shape)).

Definition orthogonal_init (c : Context ndarray) (shape : list nat) (column_axes : nat)
    : ndarray * Context ndarray :=
  (mk_ndarray shape (repeat 1%Q (fold_right Nat.mul 1%nat shape)), c).

(** A stored vector of two entries under the name [weight]. *)
Definition weight : ndarray := mk_ndarray [2%nat] [1%Q; 2%Q].

Definition ctx : Context ndarray :=
  mkContext false {[ "weight" := weight ]} ∅ ∅ ∅ 0%Z 0%Z [] Sample.the_model.

End SampleStore.

Module SampleGroup.

(** Two workers, each holding a [2 x 2] array. *)
Definition inp : pvalue :=
  mk_pvalue [2%nat; 2%nat] [[1; 2; 3; 4]%Q; [10; 20; 30; 40]%Q].

(** Two workers, each holding four entries: the leading dimension is
    twice the group size. *)
Definition wide : pvalue :=
  mk_pvalue [4%nat] [[1; 2; 3; 4]%Q; [10; 20; 30; 40]%Q].

End SampleGroup.

Module SampleVocab.

(** A vocabulary of three tokens embedded in two features. *)
Definition inp_embd : list (list Q) := [[1; 2]%Q; [3; 4]%Q; [5; 6]%Q].

End SampleVocab.

Module SampleRun.

Definition stopping : EarlyStopping := mkEarlyStopping (1 # 100) 5 2.

(** One step per call, snap of one example. *)
Definition training : Training := mkTraining 1 1 1 stopping.

(** A snap of two examples and [loss_top_p = 0.9]. *)
Definition snapped : Training := mkTraining 1 (9 # 10) 2 stopping.

Definition wandb : WandB := mkWandB 1 [3%Z; 2%Z].

End SampleRun.

Module SampleReadings.

(** Three strictly decreasing losses, as many as the largest window of
    [SampleRun.wandb]. *)
Definition falling : list (Q * Q) := [(5, 1); (4, 1); (3, 1)]%Q.

(** Five readings, more than the largest window. *)
Definition five : list (Q * Q) := [(5, 1); (6, 2); (30, 3); (40, 4); (50, 5)]%Q.

End SampleReadings.

Module SampleRails.

(** A state of the two rails on one-position tensors, no parameters. *)
Definition state : REVERSIBLE_CTX unit :=
  (∅, Sample.const 7, Sample.const 0, Sample.const 3, Sample.const 0).

(** Gradients of one block and of the blocks after it, under one name. *)
Definition d_params_old : gmap string (tensor unit) := {[ "w" := Sample.const 1 ]}.
Definition d_params : gmap string (tensor unit) := {[ "w" := Sample.const 2 ]}.

End SampleRails.

Module SampleNorm.

(** Two rows of three features, and a gradient of the same shape. *)
Definition src : list (list Q) := [[1; 2; 6]%Q; [0; 4; 8]%Q].
Definition dy : list (list Q) := [[1; 0; 0]%Q; [0; 1; 2]%Q].

Definition norm_scale (centred : list Q) : Q := 1 # 2.

End SampleNorm.

Module SampleSpike.

(** A largest window of five calls. *)
Definition wandb : WandB := mkWandB 1 [5%Z].

(** A monitor that has seen three readings of one and one of ten. *)
Definition monitor : WandbLog :=
  mkWandbLog false [1; 1; 1; 10]%Q [0; 0; 0; 0]%Q 4 [1; 1; 1; 1]%Q.

(** Four readings at the level two. *)
Definition flat : list (Q * Q) := [(2, 1); (2, 1); (2, 1); (2, 1)]%Q.

End SampleSpike.

Module SampleEdge.

(** Four device steps per call, more than either median size of
    [SampleRun.wandb]. *)
Definition coarse : Training := mkTraining 4 1 1 SampleRun.stopping.

Definition no_sizes : WandB := mkWandB 1 [].

End SampleEdge.

Module SampleTrain.

(** A model with one bias as its parameters and two examples per batch;
    the loss of an example is its entry plus the bias. *)
Definition unreduced_loss (p : Q) (d : Q * Q) : list Q := [(fst d + p)%Q; (snd d + p)%Q].

Definition grad_of (p : Q) (d : Q * Q) : Q := 1%Q.

Definition update (p g : Q) (s : Z) : Q := (p - g)%Q.

Definition data_at (dat : list (Q * Q)) (s ds : Z) : Q * Q :=
  nth (Z.to_nat (s mod ds)) dat (0%Q, 0%Q).

Definition with_data (w : WhileTrainContext Q (list (Q * Q)) Z) (dat : list (Q * Q))
    : WhileTrainContext Q (list (Q * Q)) Z :=
  mkWhileTrainContext (wctx_parameters w) dat (wctx_loss w) (wctx_top_loss w)
                      (wctx_current_step w).

Definition wctx : WhileTrainContext Q (list (Q * Q)) Z :=
  mkWhileTrainContext 0%Q [] 9%Q 9%Q 0%Z.

Definition dat : list (Q * Q) := [(1, 3); (2, 6)]%Q.

End SampleTrain.
(** * Part II: properties *)

(** ** 32-bit arithmetic *)

Lemma int32_wrap_small (z : Z) : Int32.in_range z -> Int32.wrap z = z.
Proof.
  unfold Int32.in_range, Int32.min_signed, Int32.max_signed, Int32.wrap.
  intros H. rewrite Z.mod_small; lia.
Qed.

Lemma int32_add_succ (z : Z) :
  (Int32.min_signed <= z < Int32.max_signed)%Z -> Int32.add z 1 = (z + 1)%Z.
Proof.
  intros H. apply int32_wrap_small.
  unfold Int32.in_range, Int32.min_signed, Int32.max_signed in *. lia.
Qed.

(** ** The reversible engine *)

Section EngineFacts.

Variable index : Type.
Variable add_to_prefix : Context (tensor index) -> string -> Context (tensor index).
Variable pullback :
  (gmap string (tensor index) -> tensor index -> tensor index) ->
  gmap string (tensor index) -> tensor index -> tensor index ->
  gmap string (tensor index) * tensor index.
Variable conv_block feed_forward : body_fn index.

Implicit Types (ctx : Context (tensor index)) (fn : rev_fn index).
Implicit Types (params : gmap string (tensor index)) (x y : tensor index).

Lemma tensor_eq_refl x : tensor_eq x x.
Proof. intros i. reflexivity. Qed.

Lemma tsub_tadd_cancel x y : tensor_eq (tsub (tadd y x) y) x.
Proof. intros i. unfold tsub, tadd. ring. Qed.

(** [base] overwrites the name cache before it does anything else, so the
    cache the context carries when [base] is entered is immaterial. *)
Lemma base_forgets_name_cache ctx saved cache fn params x :
  base add_to_prefix (set_name_cache ctx cache) saved fn params x =
  base add_to_prefix ctx saved fn params x.
Proof. reflexivity. Qed.

Lemma base_leaves_context ctx saved fn params x :
  exists cache,
    snd (base add_to_prefix ctx saved fn params x) = set_name_cache ctx cache.
Proof.
  unfold base. destruct (fn _ x _) as [out c]. eexists. reflexivity.
Qed.

Lemma reversible_executing ctx fn params x0 x0_backup x1 x1_backup :
  is_initializing ctx = false ->
  reversible add_to_prefix ctx fn (params, x0, x0_backup, x1, x1_backup) =
  (let fx := fst (base add_to_prefix ctx (name_cache ctx) fn params x1) in
   (params, x1, x1, tadd fx x0, tadd fx x0),
   snd (base add_to_prefix ctx (name_cache ctx) fn params x1)).
Proof.
  intros Hexec. unfold reversible. rewrite Hexec.
  destruct (base add_to_prefix ctx (name_cache ctx) fn params x1) as [fx ctx'].
  reflexivity.
Qed.

Lemma reversible_keeps_mode ctx fn src :
  is_initializing (snd (reversible add_to_prefix ctx fn src)) = is_initializing ctx.
Proof.
  destruct src as [[[[params x0] x0b] x1] x1b].
  unfold reversible. destruct (is_initializing ctx) eqn:Hmode.
  - destruct (fn _ x1 _) as [out c]. simpl. congruence.
  - unfold base. destruct (fn _ x1 _) as [out c]. simpl. congruence.
Qed.

Lemma reversible_rails_backed_up ctx fn src :
  is_initializing ctx = false ->
  rails_backed_up (rails (fst (reversible add_to_prefix ctx fn src))).
Proof.
  intros Hexec. destruct src as [[[[params x0] x0b] x1] x1b].
  rewrite reversible_executing by assumption. simpl. split; reflexivity.
Qed.

Lemma block_keeps_mode ctx inp :
  is_initializing (snd (block add_to_prefix conv_block feed_forward ctx inp)) =
  is_initializing ctx.
Proof.
  destruct inp as [src i]. unfold block.
  repeat match goal with
  | |- context [reversible add_to_prefix ?c ?f ?s] =>
      let H := fresh "Hm" in
      pose proof (reversible_keeps_mode c f s) as H;
      destruct (reversible add_to_prefix c f s) as [? ?]; simpl in H
  end.
  simpl. congruence.
Qed.

Lemma block_rails_backed_up ctx inp :
  is_initializing ctx = false ->
  rails_backed_up
    (rails (fst (fst (block add_to_prefix conv_block feed_forward ctx inp)))).
Proof.
  intros Hexec. destruct inp as [src i]. unfold block.
  destruct (reversible add_to_prefix _ (momentumnet_main _ conv_block) src)
    as [s1 c1] eqn:E1.
  destruct (reversible add_to_prefix c1 _ s1) as [s2 c2] eqn:E2.
  destruct (reversible add_to_prefix _ (momentumnet_main _ feed_forward) s2)
    as [s3 c3] eqn:E3.
  destruct (reversible add_to_prefix c3 _ s3) as [s4 c4] eqn:E4.
  simpl.
  assert (H1 : is_initializing c1 = false).
  { rewrite <- Hexec. change c1 with (snd (s1, c1)). rewrite <- E1.
    rewrite reversible_keeps_mode. reflexivity. }
  assert (H2 : is_initializing c2 = false).
  { rewrite <- H1. change c2 with (snd (s2, c2)). rewrite <- E2.
    apply reversible_keeps_mode. }
  assert (H3 : is_initializing c3 = false).
  { rewrite <- H2. change c3 with (snd (s3, c3)). rewrite <- E3.
    rewrite reversible_keeps_mode. reflexivity. }
  change s4 with (fst (s4, c4)). rewrite <- E4.
  apply reversible_rails_backed_up. exact H3.
Qed.

Lemma loop_rails_backed_up steps : forall ctx inp,
  is_initializing ctx = false ->
  (0 < steps)%nat ->
  rails_backed_up
    (rails (fst (fst (loop add_to_prefix conv_block feed_forward steps ctx inp)))).
Proof.
  induction steps as [|n IH]; intros ctx inp Hexec Hpos; [lia|].
  simpl.
  pose proof (block_keeps_mode ctx inp) as Hm.
  pose proof (block_rails_backed_up ctx inp Hexec) as Hb.
  destruct (block add_to_prefix conv_block feed_forward ctx inp) as [carry ctx'].
  simpl in Hm, Hb.
  destruct n as [|n'].
  - simpl. exact Hb.
  - apply IH; [congruence | lia].
Qed.



End EngineFacts.

Section EngineRules.

Variable index : Type.

Implicit Types (ctx sub_ctx : Context (tensor index)) (x dy : tensor index).

(** C2 (amended). [revnet_out] returns the sum of the two rails, and its
    backward rule returns the incoming gradient for both rails and, in the
    two backup slots, the rail values [x0] and [x1] themselves; the stored
    backups [x0_back] and [x1_back] are not read, and what is returned
    coincides with them exactly when each rail equals its backup. *)
Theorem revnet_out_returns_rails x0 x0_back x1 x1_back dy :
  revnet_out (x0, x0_back, x1, x1_back) = tadd x0 x1 /\
  revnet_out_grad (x0, x0_back, x1, x1_back) dy = (dy, x0, dy, x1) /\
  (revnet_out_grad (x0, x0_back, x1, x1_back) dy = (dy, x0_back, dy, x1_back) <->
   rails_backed_up (x0, x0_back, x1, x1_back)).
Proof.
  split; [reflexivity|]. split; [reflexivity|].
  simpl. split.
  - intros H. injection H as H0 H1. split; assumption.
  - intros [H0 H1]. rewrite H0, H1. reflexivity.
Qed.

(** C6. With the momentum coefficient [beta] in (0, 1) and a depth index
    whose successor fits the 32-bit counter, the main transform hands
    [x * (1 - beta) / beta ^ (idx + 1)] to the wrapped block (the quotient
    is exact: multiplied back by [beta ^ (idx + 1)] it gives
    [x * (1 - beta)]), and the side transform returns [x * beta ^ idx] and
    leaves the context as it found it: no block runs. *)
Theorem momentumnet_split ctx sub_ctx (fn : body_fn index) x idx :
  let beta := momentumnet_beta (model ctx) in
  (0 < beta)%Q -> (beta < 1)%Q ->
  (Int32.min_signed <= idx < Int32.max_signed)%Z ->
  momentumnet_main ctx fn sub_ctx x idx =
    fn sub_ctx (fun i => x i * (1 - beta) / beta ^ (idx + 1))%Q /\
  (forall i,
     (x i * (1 - beta) / beta ^ (idx + 1) * beta ^ (idx + 1) == x i * (1 - beta))%Q) /\
  momentumnet_side ctx sub_ctx x idx = ((fun i => x i * beta ^ idx)%Q, sub_ctx).
Proof.
  intros beta Hpos Hlt Hidx. split; [|split].
  - unfold momentumnet_main. rewrite int32_add_succ by assumption. reflexivity.
  - intros i. field.
    pose proof (Qpower_0_lt beta (idx + 1) Hpos) as Hp.
    intros Hz. rewrite Hz in Hp. apply (Qlt_irrefl 0). exact Hp.
  - reflexivity.
Qed.

End EngineRules.



(** A state whose backups differ from its rails: the backward rule of
    [revnet_out] returns the rails, not the backups. *)
Lemma revnet_out_grad_ignores_backups :
  let '(_, b0, _, b1) :=
    revnet_out_grad
      (Sample.const 1, Sample.const 2, Sample.const 3, Sample.const 4)
      (Sample.const 5) in
  ~ tensor_eq b0 (Sample.const 2) /\ ~ tensor_eq b1 (Sample.const 4).
Proof.
  simpl. split; intros H; specialize (H tt); discriminate H.
Qed.

Lemma momentumnet_split_witness :
  (0 < 1 # 2)%Q /\ (1 # 2 < 1)%Q /\
  momentumnet_main Sample.ctx Sample.double Sample.ctx (Sample.const 3) 3%Z =
    Sample.double Sample.ctx
      (fun i => Sample.const 3 i * (1 - (1 # 2)) / (1 # 2) ^ (3 + 1))%Q.
Proof.
  split; [reflexivity|]. split; [reflexivity|].
  refine (proj1 (momentumnet_split unit Sample.ctx Sample.ctx Sample.double
                   (Sample.const 3) 3%Z _ _ _)).
  - reflexivity.
  - reflexivity.
  - unfold Int32.min_signed, Int32.max_signed. lia.
Defined.

(** ** Ordering and sums *)

Section InsertionSort.

Variable leb : Q -> Q -> bool.
Variable R : Q -> Q -> Prop.
Hypothesis leb_true : forall x y, leb x y = true -> R x y.
Hypothesis leb_false : forall x y, leb x y = false -> R y x.
Hypothesis R_trans : forall x y z, R x y -> R y z -> R x z.

Lemma insert_by_perm (x : Q) (l : list Q) : Permutation (insert_by leb x l) (x :: l).
Proof.
  induction l as [|y t IH]; simpl; [reflexivity|].
  destruct (leb x y); [reflexivity|].
  rewrite IH. apply perm_swap.
Qed.

Lemma sort_by_perm (l : list Q) : Permutation (sort_by leb l) l.
Proof.
  induction l as [|x l IH]; simpl; [reflexivity|].
  rewrite insert_by_perm. constructor. exact IH.
Qed.

Lemma insert_by_sorted (x : Q) (l : list Q) :
  StronglySorted R l -> StronglySorted R (insert_by leb x l).
Proof.
  induction 1 as [|y t Ht IH Hy]; simpl.
  - repeat constructor.
  - destruct (leb x y) eqn:E.
    + constructor; [constructor; assumption|].
      constructor; [apply leb_true; exact E|].
      eapply List.Forall_impl; [|exact Hy].
      intros z Hz. eapply R_trans; [apply leb_true; exact E | exact Hz].
    + constructor; [exact IH|].
      eapply Permutation_Forall; [symmetry; apply insert_by_perm|].
      constructor; [apply leb_false; exact E | exact Hy].
Qed.

Lemma sort_by_sorted (l : list Q) : StronglySorted R (sort_by leb l).
Proof.
  induction l as [|x l IH]; simpl; [constructor|].
  apply insert_by_sorted. exact IH.
Qed.

End InsertionSort.

Lemma Qle_bool_false (x y : Q) : Qle_bool x y = false -> (y <= x)%Q.
Proof.
  intros H. apply Qlt_le_weak. apply Qnot_le_lt. intros Hle.
  apply Qle_bool_iff in Hle. congruence.
Qed.

Lemma sort_asc_perm (l : list Q) : Permutation (sort_asc l) l.
Proof. apply sort_by_perm. Qed.

Lemma sort_asc_ascending (l : list Q) : ascending (sort_asc l).
Proof.
  apply sort_by_sorted.
  - intros x y. apply Qle_bool_imp_le.
  - apply Qle_bool_false.
  - intros x y z. apply Qle_trans.
Qed.

Lemma sort_desc_perm (l : list Q) : Permutation (sort_desc l) l.
Proof. apply sort_by_perm. Qed.

Lemma sort_desc_descending (l : list Q) : descending (sort_desc l).
Proof.
  apply (sort_by_sorted (fun a b => Qle_bool b a) (fun a b => (b <= a)%Q)).
  - intros x y. apply Qle_bool_imp_le.
  - intros x y. apply Qle_bool_false.
  - intros x y z Hxy Hyz. eapply Qle_trans; eassumption.
Qed.

Lemma Qsum_perm (l l' : list Q) : Permutation l l' -> (Qsum l == Qsum l')%Q.
Proof.
  induction 1 as [|x l l' _ IH|x y l|l l' l'' _ IH1 _ IH2]; simpl.
  - reflexivity.
  - rewrite IH. reflexivity.
  - ring.
  - rewrite IH1. exact IH2.
Qed.

Lemma Qsum_app (l l' : list Q) : (Qsum (l ++ l') == Qsum l + Qsum l')%Q.
Proof.
  induction l as [|x l IH]; simpl; [ring|]. rewrite IH. ring.
Qed.

(** ** The parameter store *)

Section ParameterStoreFacts.

Variable cast : dtype -> Q -> Q.
Variable prefixed_name : Context ndarray -> string -> string.
Variable random_split : Z -> Z * Z.
Variable random_normal : Z -> list nat -> dtype -> ndarray.
Variable orthogonal_init :
  Context ndarray -> list nat -> nat -> ndarray * Context ndarray.

(** C4 (amended). For a name already in the store, [get_param] never
    fails, whatever shape is requested: it returns the stored tensor, cast
    to the computation type, and leaves the context (store, variance table
    and generator state) untouched.  No shape is compared anywhere. *)
Theorem get_param_existing_ignores_shape (ctx : Context ndarray) (name : string)
    (shape : option (list nat)) (std mean : option Q) (column_axes : nat)
    (scale post_variance_scale lr_scale : Q) (dt : option dtype)
    (init_val : option ndarray) (stored : ndarray) :
  parameters ctx !! prefixed_name ctx name = Some stored ->
  get_param cast prefixed_name random_split random_normal orthogonal_init
            ctx name shape std mean column_axes scale post_variance_scale
            lr_scale dt init_val =
  Returned (astype cast stored (default (computation_dtype (model ctx)) dt), ctx).
Proof.
  intros Hstored. unfold get_param. rewrite Hstored. reflexivity.
Qed.

End ParameterStoreFacts.

(** The store holds [weight] with shape [[2]]; asking for it again with
    shape [[3]] returns the stored two-entry tensor and raises nothing. *)
Lemma get_param_shape_mismatch_returns :
  nd_shape SampleStore.weight <> [3%nat] /\
  get_param SampleStore.cast SampleStore.prefixed_name SampleStore.random_split
            SampleStore.random_normal SampleStore.orthogonal_init
            SampleStore.ctx "weight" (Some [3%nat]) None None 1 1%Q 1%Q 1%Q None None =
  Returned (SampleStore.weight, SampleStore.ctx) /\
  (forall e,
     get_param SampleStore.cast SampleStore.prefixed_name SampleStore.random_split
               SampleStore.random_normal SampleStore.orthogonal_init
               SampleStore.ctx "weight" (Some [3%nat]) None None 1 1%Q 1%Q 1%Q None None
     <> Raised e).
Proof.
  split; [discriminate|]. split; [reflexivity|]. intros e H. discriminate H.
Qed.

Lemma get_param_existing_ignores_shape_witness :
  parameters SampleStore.ctx !! SampleStore.prefixed_name SampleStore.ctx "weight"
    = Some SampleStore.weight /\
  get_param SampleStore.cast SampleStore.prefixed_name SampleStore.random_split
            SampleStore.random_normal SampleStore.orthogonal_init
            SampleStore.ctx "weight" (Some [3%nat]) None None 1 1%Q 1%Q 1%Q None None =
  Returned (astype SampleStore.cast SampleStore.weight
              (default (computation_dtype (model SampleStore.ctx)) None),
            SampleStore.ctx).
Proof.
  split; [reflexivity|].
  apply (get_param_existing_ignores_shape SampleStore.cast SampleStore.prefixed_name
           SampleStore.random_split SampleStore.random_normal
           SampleStore.orthogonal_init SampleStore.ctx "weight").
  reflexivity.
Defined.

(** ** The collective layer *)

Lemma vadd_length (a : list Q) : forall b,
  length (vadd a b) = Nat.min (length a) (length b).
Proof.
  induction a as [|x a IH]; intros [|y b]; simpl; try reflexivity.
  rewrite IH. reflexivity.
Qed.

Lemma group_sum_length (n : nat) (bufs : list (list Q)) :
  Forall (fun d => length d = n) bufs -> length (group_sum n bufs) = n.
Proof.
  unfold group_sum. induction 1 as [|d bufs Hd _ IH]; simpl.
  - apply repeat_length.
  - rewrite vadd_length, IH, Hd. apply Nat.min_id.
Qed.

Lemma firstn_plus {A : Type} (a b : nat) : forall l : list A,
  firstn (a + b) l = firstn a l ++ firstn b (skipn a l).
Proof.
  induction a as [|a IH]; intros l; simpl; [reflexivity|].
  destruct l as [|x l]; simpl.
  - destruct b; reflexivity.
  - rewrite IH. reflexivity.
Qed.

(** Consecutive chunks, put end to end, give back the front of the list. *)
Lemma concat_chunks (c : nat) (l : list Q) (n : nat) :
  concat (map (fun i => chunk c i l) (seq 0 n)) = firstn (n * c) l.
Proof.
  induction n as [|n IH]; [reflexivity|].
  rewrite seq_S, map_app, concat_app, IH. simpl.
  rewrite app_nil_r. unfold chunk.
  replace (c + n * c)%nat with (n * c + c)%nat by lia.
  symmetry. apply firstn_plus.
Qed.

(** The [i]-th chunk of a concatenation of equally long buffers is the
    [i]-th buffer. *)
Lemma chunk_concat (c : nat) (ds : list (list Q)) :
  Forall (fun d => length d = c) ds ->
  forall i d, ds !! i = Some d -> chunk c i (concat ds) = d.
Proof.
  induction 1 as [|d0 ds Hd0 _ IH]; intros i d Hi; [discriminate|].
  destruct i as [|i]; simpl in Hi.
  - injection Hi as <-. unfold chunk.
    change (concat (d0 :: ds)) with (d0 ++ concat ds).
    change (0 * c)%nat with 0%nat. rewrite skipn_O.
    rewrite firstn_app, Hd0, Nat.sub_diag, firstn_O, app_nil_r.
    rewrite <- Hd0. apply firstn_all.
  - unfold chunk.
    change (concat (d0 :: ds)) with (d0 ++ concat ds).
    change (S i * c)%nat with (c + i * c)%nat.
    rewrite skipn_app, Hd0.
    rewrite skipn_all2 by lia.
    replace (c + i * c - c)%nat with (i * c)%nat by lia.
    rewrite app_nil_l. apply (IH i d Hi).
Qed.

Lemma all_gather_reshape (out : pvalue) (shape : list nat) :
  shape_size shape = (group_size out * shape_size (pv_shape out))%nat ->
  reshape (lax_all_gather out) shape =
  Returned (mk_pvalue shape (map (fun _ => concat (pv_data out)) (pv_data out))).
Proof.
  intros Hsz. unfold reshape.
  replace (shape_size (pv_shape (lax_all_gather out)))
    with (group_size out * shape_size (pv_shape out))%nat by reflexivity.
  rewrite (proj2 (Nat.eqb_eq _ _) Hsz). reflexivity.
Qed.

Lemma concat_length_uniform (c : nat) (ds : list (list Q)) :
  Forall (fun d => length d = c) ds -> length (concat ds) = (length ds * c)%nat.
Proof.
  induction 1 as [|d ds Hd _ IH]; [reflexivity|].
  change (concat (d :: ds)) with (d ++ concat ds).
  rewrite length_app, IH, Hd. reflexivity.
Qed.

(** C3 (amended). When the leading dimension of every worker's input
    equals the group size [N], [psum_scatter] succeeds; the forward value
    drops that dimension, its per-worker buffers are the consecutive
    slices of the element-wise sum over the group (put end to end, in
    worker order, they are that sum: disjoint shards of 1/N each), and the
    backward rule hands every worker the gradients of all workers stacked
    in worker order, under the shape of the original input. *)
Theorem psum_scatter_shards (inp : pvalue) (rest : list nat) :
  pv_wf inp ->
  pv_shape inp = group_size inp :: rest ->
  exists y grad,
    psum_scatter inp = Returned (y, grad) /\
    pv_shape y = rest /\
    group_size y = group_size inp /\
    pv_wf y /\
    concat (pv_data y) = group_sum (shape_size (pv_shape inp)) (pv_data inp) /\
    (forall out,
       pv_wf out -> pv_shape out = rest -> group_size out = group_size inp ->
       exists g,
         grad out = Returned g /\
         pv_shape g = pv_shape inp /\
         group_size g = group_size inp /\
         pv_wf g /\
         (forall buf, In buf (pv_data g) ->
            forall i d, pv_data out !! i = Some d ->
              chunk (shape_size rest) i buf = d)).
Proof.
  intros Hwf Hshape.
  assert (Hlen : length (group_sum (shape_size (pv_shape inp)) (pv_data inp))
                 = (group_size inp * shape_size rest)%nat).
  { rewrite group_sum_length by exact Hwf. rewrite Hshape. reflexivity. }
  unfold psum_scatter, lax_psum_scatter. rewrite Hshape.
  rewrite Nat.eqb_refl. rewrite <- Hshape.
  eexists. eexists. split; [reflexivity|]. simpl.
  split; [reflexivity|]. split.
  { unfold group_size. simpl. rewrite length_map, length_seq. reflexivity. }
  split.
  { unfold pv_wf. simpl. apply List.Forall_forall. intros d Hd.
    apply in_map_iff in Hd as [i [<- Hi]]. apply in_seq in Hi.
    unfold chunk. rewrite length_firstn, length_skipn, Hlen. nia. }
  split.
  { rewrite concat_chunks. rewrite <- Hlen. apply firstn_all. }
  intros out Hout Hoshape Hosize.
  assert (Hrows : Forall (fun d => length d = shape_size rest) (pv_data out)).
  { unfold pv_wf in Hout. rewrite Hoshape in Hout. exact Hout. }
  rewrite all_gather_reshape
    by (rewrite Hshape, Hoshape, Hosize; reflexivity).
  eexists. split; [reflexivity|].
  split; [reflexivity|]. split.
  { unfold group_size. cbn [pv_data]. rewrite length_map. exact Hosize. }
  split.
  { unfold pv_wf. cbn [pv_data pv_shape]. apply List.Forall_forall. intros buf Hbuf.
    apply in_map_iff in Hbuf as [d0 [<- _]].
    rewrite (concat_length_uniform _ _ Hrows), Hshape.
    unfold group_size in Hosize. rewrite Hosize. reflexivity. }
  intros buf Hbuf i d Hi. cbn [pv_data] in Hbuf.
  apply in_map_iff in Hbuf as [d0 [<- _]].
  apply (chunk_concat _ _ Hrows i d Hi).
Qed.

(** A leading dimension of 4 in a group of 2 is divisible by the group
    size, yet [psum_scatter] stops with JAX's shape error. *)
Lemma psum_scatter_divisible_raises :
  pv_wf SampleGroup.wide /\
  (4 mod group_size SampleGroup.wide = 0)%nat /\
  psum_scatter SampleGroup.wide = Raised ValueError.
Proof.
  split; [|split; reflexivity].
  unfold pv_wf. simpl. repeat constructor.
Qed.

Lemma psum_scatter_shards_witness :
  pv_wf SampleGroup.inp /\
  pv_shape SampleGroup.inp = group_size SampleGroup.inp :: [2%nat] /\
  exists y grad,
    psum_scatter SampleGroup.inp = Returned (y, grad) /\
    pv_shape y = [2%nat] /\
    pv_data y = [[1 + (10 + 0); 2 + (20 + 0)]%Q; [3 + (30 + 0); 4 + (40 + 0)]%Q].
Proof.
  assert (Hwf : pv_wf SampleGroup.inp) by (unfold pv_wf; simpl; repeat constructor).
  split; [exact Hwf|]. split; [reflexivity|].
  destruct (psum_scatter_shards SampleGroup.inp [2%nat] Hwf eq_refl)
    as [y [grad [Heq [Hs _]]]].
  exists y, grad. split; [exact Heq|]. split; [exact Hs|].
  simpl in Heq. injection Heq as <- _. reflexivity.
Defined.

(** ** Token embedding *)

Ltac zbools :=
  repeat match goal with
  | |- context [(?a <=? ?b)%Z] => destruct (Z.leb_spec a b)
  | |- context [(?a <? ?b)%Z] => destruct (Z.ltb_spec a b)
  | |- context [(?a =? ?b)%Z] => destruct (Z.eqb_spec a b)
  end.

Lemma hot_count (t : Z) (n : nat) :
  count_occ bool_dec (map (fun j => Z.eqb t (Z.of_nat j)) (seq 0 n)) true =
  if ((0 <=? t) && (t <? Z.of_nat n))%Z then 1%nat else 0%nat.
Proof.
  induction n as [|n IH].
  - cbn [seq map count_occ]. zbools; simpl; first [reflexivity | lia].
  - rewrite seq_S, map_app, count_occ_app, IH. cbn [map count_occ Nat.add].
    zbools; simpl; first [reflexivity | lia].
Qed.

Lemma one_hot_row_nth (t : Z) (n j : nat) :
  (j < n)%nat ->
  nth j (map (fun j => Z.eqb t (Z.of_nat j)) (seq 0 n)) false = Z.eqb t (Z.of_nat j).
Proof.
  intros Hj.
  rewrite (nth_indep _ false (Z.eqb t (Z.of_nat 0)))
    by (rewrite length_map, length_seq; exact Hj).
  rewrite (map_nth (fun j => Z.eqb t (Z.of_nat j))).
  rewrite seq_nth by exact Hj. reflexivity.
Qed.

Lemma veq_trans (a : list Q) : forall b c,
  Forall2 Qeq a b -> Forall2 Qeq b c -> Forall2 Qeq a c.
Proof.
  induction a as [|x a IH]; intros b c Hab Hbc;
    inversion Hab; subst; inversion Hbc; subst; constructor.
  - etransitivity; eassumption.
  - eapply IH; eassumption.
Qed.

Lemma vadd_all_zero (a : list Q) : forall b,
  all_zero a -> all_zero b -> all_zero (vadd a b).
Proof.
  induction a as [|x a IH]; intros [|y b] Ha Hb; simpl; try constructor.
  - inversion Ha; inversion Hb; subst. lra.
  - inversion Ha; inversion Hb; subst. apply IH; assumption.
Qed.

Lemma vadd_zero_l (z : list Q) : forall v,
  all_zero z -> length z = length v -> Forall2 Qeq (vadd z v) v.
Proof.
  induction z as [|x z IH]; intros [|y v] Hz Hlen; simpl in *;
    try discriminate; constructor.
  - inversion Hz; subst. lra.
  - inversion Hz; subst. apply IH; [assumption | lia].
Qed.

Lemma vadd_zero_r (v : list Q) : forall z,
  all_zero z -> length z = length v -> Forall2 Qeq (vadd v z) v.
Proof.
  induction v as [|y v IH]; intros [|x z] Hz Hlen; simpl in *;
    try discriminate; constructor.
  - inversion Hz; subst. lra.
  - inversion Hz; subst. apply IH; [assumption | lia].
Qed.

Lemma vscale_zero (c : Q) (r : list Q) : (c == 0)%Q -> all_zero (vscale c r).
Proof.
  intros Hc. unfold vscale, all_zero. apply Forall_map.
  apply List.Forall_forall. intros q _. simpl. rewrite Hc. ring.
Qed.

Lemma vscale_one (r : list Q) : Forall2 Qeq (vscale 1 r) r.
Proof.
  unfold vscale. induction r as [|q r IH]; simpl; constructor; [ring | exact IH].
Qed.

Lemma repeat_all_zero (n : nat) : all_zero (repeat 0%Q n).
Proof. induction n; simpl; constructor; [reflexivity | assumption]. Qed.

Lemma row_times_length (width : nat) (right : list (list Q)) :
  Forall (fun r => length r = width) right ->
  forall l, length (row_times width l right) = width.
Proof.
  induction 1 as [|r right Hr _ IH]; intros [|c l]; simpl;
    try apply repeat_length.
  rewrite vadd_length, IH. unfold vscale. rewrite length_map, Hr.
  apply Nat.min_id.
Qed.

Lemma row_times_all_zero (width : nat) (right : list (list Q)) : forall l,
  Forall (fun c => (c == 0)%Q) l -> all_zero (row_times width l right).
Proof.
  induction right as [|r right IH]; intros [|c l] Hl; simpl;
    try apply repeat_all_zero.
  inversion Hl; subst.
  apply vadd_all_zero; [apply vscale_zero; assumption | apply IH; assumption].
Qed.

(** Weighting the rows of a table by the one-hot row of a token picks the
    token's row, or nothing when the token matches no row. *)
Lemma row_times_one_hot (width : nat) (t : Z) (right : list (list Q)) :
  Forall (fun r => length r = width) right ->
  forall a : nat,
  let l := map (fun j => bool_to_Q (Z.eqb t (Z.of_nat j))) (seq a (length right)) in
  if ((Z.of_nat a <=? t) && (t <? Z.of_nat (a + length right)))%Z
  then Forall2 Qeq (row_times width l right)
                   (nth (Z.to_nat t - a) right (repeat 0%Q width))
  else all_zero (row_times width l right).
Proof.
  induction 1 as [|r right Hr Hright IH]; intros a l; subst l.
  - simpl. replace (a + 0)%nat with a by lia.
    destruct (Z.of_nat a <=? t)%Z eqn:E0; simpl; [|apply repeat_all_zero].
    destruct (t <? Z.of_nat a)%Z eqn:E1; [lia | apply repeat_all_zero].
  - cbn [length seq map row_times].
    specialize (IH (S a)). cbv zeta in IH.
    assert (Hlen : length (row_times width
              (map (fun j => bool_to_Q (t =? Z.of_nat j)%Z) (seq (S a) (length right)))
              right) = width) by (apply row_times_length; assumption).
    revert IH.
    destruct (Z.eqb_spec t (Z.of_nat a)) as [Et|Et]; cbn [bool_to_Q];
      destruct (Z.leb_spec (Z.of_nat a) t);
      destruct (Z.ltb_spec t (Z.of_nat (a + S (length right))));
      destruct (Z.leb_spec (Z.of_nat (S a)) t);
      destruct (Z.ltb_spec t (Z.of_nat (S a + length right)));
      cbn [andb]; intros IH; try lia.
    + (* the token is this row: the remaining rows contribute nothing *)
      replace (Z.to_nat t - a)%nat with 0%nat by lia. cbn [nth].
      eapply veq_trans; [ apply vadd_zero_r; [exact IH|] | apply vscale_one ].
      rewrite Hlen. unfold vscale. rewrite length_map. symmetry. exact Hr.
    + (* the token is a later row *)
      replace (Z.to_nat t - a)%nat with (S (Z.to_nat t - S a))%nat by lia.
      cbn [nth].
      eapply veq_trans;
        [ apply vadd_zero_l; [apply vscale_zero; reflexivity|] | exact IH ].
      rewrite Hlen. unfold vscale. rewrite length_map. exact Hr.
    + apply vadd_all_zero; [apply vscale_zero; reflexivity | exact IH].
    + apply vadd_all_zero; [apply vscale_zero; reflexivity | exact IH].
Qed.

Lemma one_hot_single (t size : Z) :
  one_hot [t] size =
  [map (fun j => Z.eqb t (Z.of_nat j)) (seq 0 (Z.to_nat size))].
Proof. unfold one_hot, arange. simpl. rewrite map_map. reflexivity. Qed.

Lemma input_embed_single (t size : Z) (width : nat) (inp_embd : list (list Q)) :
  length inp_embd = Z.to_nat size ->
  input_embed false size width inp_embd [t] =
  Returned (Embedding
    [row_times width
       (map (fun j => bool_to_Q (Z.eqb t (Z.of_nat j))) (seq 0 (length inp_embd)))
       inp_embd]).
Proof.
  intros Hrows. unfold input_embed, matmul. rewrite one_hot_single.
  cbn [map forallb]. rewrite !length_map, length_seq, Hrows, Nat.eqb_refl.
  cbn [andb]. rewrite map_map. reflexivity.
Qed.



(** ** Loss truncation *)

Lemma sorted_app_dominates (R : Q -> Q -> Prop) (l1 l2 : list Q) :
  StronglySorted R (l1 ++ l2) -> Forall (fun a => Forall (R a) l2) l1.
Proof.
  induction l1 as [|x l1 IH]; simpl; intros H; constructor.
  - apply StronglySorted_inv in H as [_ H].
    apply Forall_app in H as [_ H]. exact H.
  - apply IH. apply StronglySorted_inv in H as [H _]. exact H.
Qed.

(** Taking one more entry of a descending list appends an entry that is
    at most each entry already taken. *)
Lemma descending_next (s : list Q) (k : nat) :
  descending s -> (k < length s)%nat ->
  exists a, firstn (S k) s = firstn k s ++ [a] /\
            Forall (fun y => (a <= y)%Q) (firstn k s).
Proof.
  intros Hs Hk.
  destruct (skipn k s) as [|a post] eqn:Eskip.
  { apply (f_equal (@length Q)) in Eskip. rewrite length_skipn in Eskip.
    simpl in Eskip. lia. }
  exists a. split.
  - replace (S k) with (k + 1)%nat by lia.
    rewrite firstn_plus, Eskip. reflexivity.
  - unfold descending in Hs. rewrite <- (firstn_skipn k s), Eskip in Hs.
    apply sorted_app_dominates in Hs.
    eapply List.Forall_impl; [|exact Hs].
    intros y Hy. inversion Hy; subst. assumption.
Qed.

Lemma Qsum_lower (x : Q) (l : list Q) :
  Forall (fun y => (x <= y)%Q) l ->
  (inject_Z (Z.of_nat (length l)) * x <= Qsum l)%Q.
Proof.
  induction 1 as [|y l Hy _ IH].
  - cbn [length Qsum fold_right]. change (inject_Z (Z.of_nat 0)) with 0%Q. lra.
  - cbn [length Qsum fold_right]. rewrite Nat2Z.inj_succ. unfold Z.succ.
    rewrite inject_Z_plus. change (inject_Z 1) with 1%Q.
    fold (Qsum l). nra.
Qed.

Lemma prefix_mean_step (s : list Q) (k : nat) :
  descending s -> (1 <= k)%nat -> (k < length s)%nat ->
  (prefix_mean s (S k) <= prefix_mean s k)%Q.
Proof.
  intros Hs Hk1 Hk.
  destruct (descending_next s k Hs Hk) as [a [Hnext Hdom]].
  unfold prefix_mean. rewrite Hnext, Qsum_app. simpl Qsum.
  pose proof (Qsum_lower a _ Hdom) as Hlow.
  rewrite length_firstn, Nat.min_l in Hlow by lia.
  rewrite Nat2Z.inj_succ. unfold Z.succ. rewrite inject_Z_plus.
  change (inject_Z 1) with 1%Q.
  set (n := inject_Z (Z.of_nat k)) in *.
  set (S := Qsum (firstn k s)) in *.
  assert (Hn : (0 < n)%Q).
  { unfold n. change 0%Q with (inject_Z 0). rewrite <- Zlt_Qlt. lia. }
  apply Qle_shift_div_r; [lra|].
  assert (HS : (S == S / n * n)%Q) by (field; lra).
  assert (Ha : (a <= S / n)%Q) by (apply Qle_shift_div_l; [exact Hn | lra]).
  set (m := (S / n)%Q) in *.
  rewrite HS at 1. nra.
Qed.

Lemma prefix_mean_antitone (s : list Q) (k k' : nat) :
  descending s -> (1 <= k)%nat -> (k <= k')%nat -> (k' <= length s)%nat ->
  (prefix_mean s k' <= prefix_mean s k)%Q.
Proof.
  intros Hs Hk1 Hkk' Hk'. induction Hkk' as [|k' Hle IH].
  - apply Qle_refl.
  - eapply Qle_trans; [apply prefix_mean_step; [exact Hs | lia | lia]|].
    apply IH. lia.
Qed.

Lemma mean_of_worst_prefix (k : Z) (l : list Q) :
  (1 <= k)%Z -> mean_of_worst k l = prefix_mean (sort_desc l) (Z.to_nat k).
Proof.
  intros Hk. unfold mean_of_worst, prefix_mean. rewrite Z2Nat.id by lia.
  reflexivity.
Qed.

Lemma mean_of_worst_antitone (k k' : Z) (l : list Q) :
  (1 <= k <= k')%Z -> (k' <= Z.of_nat (length l))%Z ->
  (mean_of_worst k' l <= mean_of_worst k l)%Q.
Proof.
  intros Hk Hk'. rewrite !mean_of_worst_prefix by lia.
  apply prefix_mean_antitone.
  - apply sort_desc_descending.
  - lia.
  - lia.
  - rewrite (Permutation_length (sort_desc_perm l)). lia.
Qed.

(** The mean of all entries is the mean of the [length l] largest. *)
Lemma mean_of_all (l : list Q) :
  (Qsum l / inject_Z (Z.of_nat (length l)) ==
   mean_of_worst (Z.of_nat (length l)) l)%Q.
Proof.
  unfold mean_of_worst. rewrite Nat2Z.id.
  rewrite <- (Permutation_length (sort_desc_perm l)) at 2.
  rewrite firstn_all, (Qsum_perm _ _ (sort_desc_perm l)). reflexivity.
Qed.

Section TopK.

Variable t : Training.
Variable batch : Z.
Hypothesis batch_pos : (1 <= batch)%Z.
Hypothesis snap_pos : (1 <= loss_top_snap t)%Z.

Lemma snapQ_pos : (0 < inject_Z (loss_top_snap t))%Q.
Proof. change 0%Q with (inject_Z 0). rewrite <- Zlt_Qlt. lia. Qed.

Lemma batchQ_pos : (0 < inject_Z batch)%Q.
Proof. change 0%Q with (inject_Z 0). rewrite <- Zlt_Qlt. lia. Qed.

Lemma top_k_of_mono (p1 p2 : Q) :
  (p1 <= p2)%Q ->
  (top_k_of batch (with_loss_top_p t p1) <= top_k_of batch (with_loss_top_p t p2))%Z.
Proof.
  intros Hp. unfold top_k_of. simpl.
  apply Z.mul_le_mono_nonneg_r; [lia|].
  apply Qceiling_resp_le.
  pose proof snapQ_pos. pose proof batchQ_pos.
  apply Qle_shift_div_l; [assumption|].
  unfold Qdiv. rewrite <- Qmult_assoc.
  rewrite (Qmult_comm (/ inject_Z (loss_top_snap t))).
  rewrite Qmult_inv_r by lra. nra.
Qed.

Lemma top_k_of_pos (p : Q) :
  (0 < p)%Q -> (1 <= top_k_of batch (with_loss_top_p t p))%Z.
Proof.
  intros Hp. unfold top_k_of. simpl.
  pose proof snapQ_pos as Hs. pose proof batchQ_pos as Hb.
  set (x := (inject_Z batch * p / inject_Z (loss_top_snap t))%Q).
  assert (Hx : (0 < x)%Q).
  { unfold x. apply Qlt_shift_div_l; [exact Hs|]. nra. }
  pose proof (Qle_ceiling x) as Hc.
  assert (Hc0 : (0 < Qceiling x)%Z).
  { rewrite Zlt_Qlt. change (inject_Z 0) with 0%Q. lra. }
  nia.
Qed.

(** With [p] at least one the snapped count reaches the batch. *)
Lemma top_k_of_full (p : Q) :
  (1 <= p)%Q -> (batch <= top_k_of batch (with_loss_top_p t p))%Z.
Proof.
  intros Hp. unfold top_k_of. simpl.
  pose proof snapQ_pos as Hs. pose proof batchQ_pos as Hb.
  set (x := (inject_Z batch * p / inject_Z (loss_top_snap t))%Q).
  pose proof (Qle_ceiling x) as Hc.
  assert (Hx : (inject_Z batch <= x * inject_Z (loss_top_snap t))%Q).
  { unfold x. unfold Qdiv. rewrite <- Qmult_assoc.
    rewrite (Qmult_comm (/ inject_Z (loss_top_snap t))).
    rewrite Qmult_inv_r by lra. nra. }
  rewrite Zle_Qle, inject_Z_mult. nra.
Qed.

Lemma top_count_cases (p : Q) :
  (0 < p)%Q ->
  let tp := with_loss_top_p t p in
  top_count batch tp = Z.min (top_k_of batch tp) batch /\
  (1 <= top_count batch tp <= batch)%Z.
Proof.
  intros Hp tp. pose proof (top_k_of_pos p Hp) as Hk. fold tp in Hk.
  unfold top_count.
  destruct (Qlt_bool (loss_top_p tp) 1) eqn:Elt; cbn [andb].
  - destruct (Z.ltb_spec (top_k_of batch tp) batch); lia.
  - assert (H1 : (1 <= p)%Q).
    { unfold Qlt_bool in Elt. apply negb_false_iff in Elt.
      apply Qle_bool_iff in Elt. exact Elt. }
    pose proof (top_k_of_full p H1). fold tp in H. lia.
Qed.

Lemma compute_top (p : Q) (losses : list Q) :
  (0 < p)%Q -> Z.of_nat (length losses) = batch ->
  let tp := with_loss_top_p t p in
  exists top,
    compute tp batch losses = Returned (top, (Qsum losses / inject_Z batch)%Q) /\
    (top == mean_of_worst (top_count batch tp) losses)%Q.
Proof.
  intros Hp Hlen tp. pose proof (top_k_of_pos p Hp) as Hk. fold tp in Hk.
  unfold compute, top_count.
  replace (loss_top_snap tp =? 0)%Z with false
    by (symmetry; apply Z.eqb_neq; simpl; lia).
  destruct (Qlt_bool (loss_top_p tp) 1 && (top_k_of batch tp <? batch)%Z) eqn:Ecase.
  - apply andb_true_iff in Ecase as [_ Elt]. apply Z.ltb_lt in Elt.
    unfold lax_top_k.
    replace ((0 <=? top_k_of batch tp)%Z && (top_k_of batch tp <=? Z.of_nat (length losses))%Z)
      with true
      by (symmetry; apply andb_true_iff; split; [apply Z.leb_le | apply Z.leb_le]; lia).
    eexists. split; [reflexivity|]. reflexivity.
  - eexists. split; [reflexivity|].
    rewrite <- Hlen. apply mean_of_all.
Qed.

End TopK.




(** ** Python slices *)

Lemma py_slice_keep_last {A : Type} (m : Z) (l : list A) :
  (1 <= m)%Z -> py_slice_from (- m) l = keep_last (Z.to_nat m) l.
Proof.
  intros Hm. unfold py_slice_from, keep_last.
  destruct (Z.ltb_spec (- m) 0); [|lia].
  f_equal. lia.
Qed.

Lemma keep_last_length {A : Type} (n : nat) (l : list A) :
  length (keep_last n l) = Nat.min n (length l).
Proof. unfold keep_last. rewrite length_skipn. lia. Qed.

Lemma keep_last_short {A : Type} (n : nat) (l : list A) :
  (length l <= n)%nat -> keep_last n l = l.
Proof.
  intros H. unfold keep_last.
  replace (length l - n)%nat with 0%nat by lia. reflexivity.
Qed.

(** Trimming, appending and trimming again is trimming the whole history. *)
Lemma keep_last_snoc {A : Type} (n : nat) (l : list A) (x : A) :
  (1 <= n)%nat -> keep_last n (keep_last n l ++ [x]) = keep_last n (l ++ [x]).
Proof.
  intros Hn. unfold keep_last.
  rewrite !length_app, length_skipn. cbn [length].
  destruct (Nat.le_gt_cases (length l) n) as [Hle|Hgt].
  - replace (length l - n)%nat with 0%nat by lia. rewrite skipn_O.
    f_equal. lia.
  - rewrite !skipn_app, !length_skipn.
    replace (length l - (length l - n) + 1 - n)%nat with 1%nat by lia.
    replace (length l + 1 - n)%nat with (S (length l - n)) by lia.
    replace (1 - (length l - (length l - n)))%nat with 0%nat by lia.
    replace (S (length l - n) - length l)%nat with 0%nat by lia.
    rewrite skipn_skipn. replace (1 + (length l - n))%nat with (S (length l - n)) by lia.
    reflexivity.
Qed.

Lemma keep_last_nonempty {A : Type} (n : nat) (l : list A) (x : A) :
  (1 <= n)%nat -> exists pre, keep_last n (l ++ [x]) = pre ++ [x].
Proof.
  intros Hn. unfold keep_last. rewrite length_app. cbn [length].
  rewrite skipn_app.
  replace (length l + 1 - n - length l)%nat with 0%nat by lia.
  rewrite skipn_O. eexists. reflexivity.
Qed.

Lemma keep_last_suffix {A : Type} (n : nat) (l : list A) :
  exists pre, l = pre ++ keep_last n l.
Proof.
  exists (firstn (length l - n) l). unfold keep_last.
  symmetry. apply firstn_skipn.
Qed.


Lemma fold_max_ge (l : list Z) : forall a x,
  x = a \/ In x l -> (x <= fold_left Z.max l a)%Z.
Proof.
  induction l as [|y l IH]; intros a x [Hx|Hx]; simpl in *.
  - lia.
  - contradiction.
  - subst. eapply Z.le_trans; [|apply (IH (Z.max a y) (Z.max a y)); left; reflexivity].
    lia.
  - destruct Hx as [<-|Hx].
    + eapply Z.le_trans; [|apply (IH (Z.max a y) (Z.max a y)); left; reflexivity].
      lia.
    + apply IH. right. exact Hx.
Qed.

Lemma fold_max_in (l : list Z) : forall a,
  fold_left Z.max l a = a \/ In (fold_left Z.max l a) l.
Proof.
  induction l as [|y l IH]; intros a; simpl; [left; reflexivity|].
  destruct (IH (Z.max a y)) as [H|H].
  - rewrite H. destruct (Z.max_spec a y) as [[_ E]|[_ E]]; rewrite E; auto.
  - right. right. exact H.
Qed.

(** [max] returns an entry of the list that no entry exceeds. *)
Lemma py_max_spec (l : list Z) (m : Z) :
  py_max l = Some m -> In m l /\ Forall (fun x => (x <= m)%Z) l.
Proof.
  destruct l as [|a l]; [discriminate|]. simpl. intros H. injection H as <-.
  split.
  - destruct (fold_max_in l a) as [H|H]; [left; symmetry; exact H | right; exact H].
  - apply List.Forall_forall. intros x Hx. apply fold_max_ge.
    destruct Hx as [<-|Hx]; [left; reflexivity | right; exact Hx].
Qed.

(** ** Medians of decreasing windows *)

Lemma insert_largest (a : Q) (s : list Q) :
  Forall (fun y => (y < a)%Q) s -> insert_by Qle_bool a s = s ++ [a].
Proof.
  induction 1 as [|y s Hy _ IH]; simpl; [reflexivity|].
  destruct (Qle_bool a y) eqn:E.
  - apply Qle_bool_iff in E. exfalso. apply (Qlt_not_le _ _ Hy E).
  - rewrite IH. reflexivity.
Qed.

(** Ordering a strictly decreasing list reverses it. *)
Lemma sort_asc_decreasing (l : list Q) :
  strictly_decreasing l -> sort_asc l = rev l.
Proof.
  induction 1 as [|a l _ IH Ha]; [reflexivity|].
  unfold sort_asc in *. cbn [sort_by fold_right]. fold (sort_by Qle_bool l).
  rewrite IH. cbn [rev]. apply insert_largest.
  apply Forall_rev. exact Ha.
Qed.

Lemma sorted_snoc (R : Q -> Q -> Prop) (s : list Q) (a : Q) :
  StronglySorted R s -> Forall (fun y => R y a) s -> StronglySorted R (s ++ [a]).
Proof.
  induction 1 as [|y s Hs IH Hy]; intros Hle; simpl.
  - repeat constructor.
  - inversion Hle; subst. constructor; [apply IH; assumption|].
    apply Forall_app. split; [exact Hy | repeat constructor; assumption].
Qed.

Lemma sorted_skipn (R : Q -> Q -> Prop) (n : nat) : forall l : list Q,
  StronglySorted R l -> StronglySorted R (skipn n l).
Proof.
  induction n as [|n IH]; intros l Hl; [exact Hl|].
  destruct l as [|a l]; [exact Hl|].
  cbn [skipn]. apply IH. apply StronglySorted_inv in Hl as [Hl _]. exact Hl.
Qed.

(** In a sorted list every entry is related to the last one. *)
Lemma sorted_last (R : Q -> Q -> Prop) (l : list Q) (z : Q) :
  (forall x, R x x) ->
  StronglySorted R l -> last l = Some z -> Forall (fun y => R y z) l.
Proof.
  intros Hrefl. induction 1 as [|a l Hl IH Ha]; intros Hlast; [constructor|].
  destruct l as [|b l'].
  - simpl in Hlast. injection Hlast as <-. repeat constructor. apply Hrefl.
  - assert (Hl' : last (b :: l') = Some z) by exact Hlast.
    constructor; [|apply IH; exact Hl'].
    rewrite List.Forall_forall in Ha. apply Ha.
    clear -Hl'. revert b Hl'. induction l' as [|c l' IH']; intros b Hl'.
    + simpl in Hl'. injection Hl' as <-. left. reflexivity.
    + right. apply (IH' c). exact Hl'.
Qed.

Lemma ascending_snoc (s : list Q) (a : Q) :
  ascending s -> Forall (fun y => (y <= a)%Q) s -> ascending (s ++ [a]).
Proof. apply sorted_snoc. Qed.

Lemma rev_decreasing_ascending (l : list Q) :
  strictly_decreasing l -> ascending (rev l).
Proof.
  induction 1 as [|a l _ IH Ha]; [constructor|].
  cbn [rev]. apply ascending_snoc; [exact IH|].
  apply Forall_rev. eapply List.Forall_impl; [|exact Ha].
  intros y Hy. apply Qlt_le_weak. exact Hy.
Qed.

Lemma decreasing_snoc (l : list Q) (x : Q) :
  strictly_decreasing l -> Forall (fun y => (x < y)%Q) l ->
  strictly_decreasing (l ++ [x]).
Proof. apply (sorted_snoc (fun a b => (b < a)%Q)). Qed.

Lemma ascending_nth (l : list Q) :
  ascending l ->
  forall i j, (i <= j)%nat -> (j < length l)%nat -> (nth i l 0 <= nth j l 0)%Q.
Proof.
  induction 1 as [|a l Hl IH Ha]; intros i j Hij Hj; [simpl in Hj; lia|].
  destruct j as [|j].
  - replace i with 0%nat by lia. apply Qle_refl.
  - destruct i as [|i]; cbn [nth].
    + rewrite List.Forall_forall in Ha. apply Ha. apply nth_In.
      simpl in Hj. lia.
    + apply IH; simpl in Hj; lia.
Qed.

Lemma pointwise_nth (a : list Q) : forall b i,
  Forall2 Qle a b -> (nth i a 0 <= nth i b 0)%Q.
Proof.
  induction a as [|x a IH]; intros b i H; inversion H; subst.
  - apply Qle_refl.
  - destruct i; cbn [nth]; [assumption | apply IH; assumption].
Qed.

Lemma middle_pointwise (a b : list Q) :
  Forall2 Qle a b -> (middle a <= middle b)%Q.
Proof.
  intros H. unfold middle.
  rewrite <- (Forall2_length _ _ _ H).
  pose proof (pointwise_nth a b (length a / 2 - 1) H).
  pose proof (pointwise_nth a b (length a / 2) H).
  destruct (Nat.even (length a)); [|assumption].
  apply Qle_shift_div_r; [reflexivity|].
  field_simplify. lra.
Qed.

(** Putting a smaller entry in front of an ascending list does not raise
    its middle. *)
Lemma middle_cons (x : Q) (A : list Q) :
  ascending (x :: A) -> A <> [] -> (middle (x :: A) <= middle A)%Q.
Proof.
  intros Hasc Hne.
  assert (Hlen : (1 <= length A)%nat) by (destruct A; [congruence | simpl; lia]).
  pose proof (ascending_nth _ Hasc) as Hnth.
  unfold middle. cbn [length].
  rewrite Nat.even_succ, <- Nat.negb_even.
  destruct (Nat.even (length A)) eqn:Eev; cbn [negb].
  - (* even length 2k with k >= 1: the new middle is the old lower middle *)
    apply Nat.even_spec in Eev as [k Hk].
    replace (S (length A) / 2)%nat with k by (rewrite Hk; apply Nat.div_unique with 1%nat; lia).
    replace (length A / 2)%nat with k by (rewrite Hk; apply Nat.div_unique with 0%nat; lia).
    destruct k as [|k]; [lia|]. cbn [nth]. replace (S k - 1)%nat with k by lia.
    pose proof (Hnth (S k) (S (S k)) ltac:(lia) ltac:(simpl; lia)) as H1.
    cbn [nth] in H1.
    apply Qle_shift_div_l; [reflexivity|]. lra.
  - (* odd length 2k+1: the new middle pair ends at the old middle *)
    assert (Hodd : Nat.odd (length A) = true) by (rewrite <- Nat.negb_even, Eev; reflexivity).
    apply Nat.odd_spec in Hodd as [k Hk].
    replace (S (length A) / 2)%nat with (S k) by (rewrite Hk; apply Nat.div_unique with 0%nat; lia).
    replace (length A / 2)%nat with k by (rewrite Hk; apply Nat.div_unique with 1%nat; lia).
    replace (S k - 1)%nat with k by lia. cbn [nth].
    pose proof (Hnth k (S k) ltac:(lia) ltac:(simpl; lia)) as H1.
    cbn [nth] in H1.
    apply Qle_shift_div_r; [reflexivity|]. lra.
Qed.

(** Dropping the largest entry of an ascending list and putting a smaller
    one in front lowers it entry by entry. *)
Lemma ascending_shift (B : list Q) : forall x h,
  ascending (x :: B ++ [h]) -> Forall2 Qle (x :: B) (B ++ [h]).
Proof.
  induction B as [|b B IH]; intros x h Hasc.
  - simpl in *. apply StronglySorted_inv in Hasc as [_ Hx].
    inversion Hx; subst. repeat constructor. assumption.
  - cbn [app] in *. apply StronglySorted_inv in Hasc as [Hrest Hx].
    inversion Hx; subst. constructor; [assumption|].
    apply IH. exact Hrest.
Qed.

Lemma middle_nonneg (s : list Q) :
  Forall (fun y => (0 <= y)%Q) s -> (0 <= middle s)%Q.
Proof.
  intros H.
  assert (Hnth : forall i, (0 <= nth i s 0)%Q).
  { intros i. destruct (Nat.lt_ge_cases i (length s)) as [Hi|Hi].
    - rewrite List.Forall_forall in H. apply H. apply nth_In. exact Hi.
    - rewrite nth_overflow by exact Hi. apply Qle_refl. }
  unfold middle. destruct (Nat.even (length s)); [|apply Hnth].
  pose proof (Hnth (length s / 2 - 1)%nat). pose proof (Hnth (length s / 2)%nat).
  apply Qle_shift_div_l; [reflexivity|]. lra.
Qed.

Lemma median_nonneg (l : list Q) :
  Forall (fun y => (0 <= y)%Q) l -> (0 <= median l)%Q.
Proof.
  intros H. unfold median. apply middle_nonneg.
  eapply Permutation_Forall; [symmetry; apply sort_asc_perm | exact H].
Qed.

(** The median of a window of strictly decreasing readings does not rise
    when a smaller reading arrives and the window is trimmed. *)
Lemma median_window_step (n : nat) (W : list Q) (x : Q) :
  (1 <= n)%nat -> W <> [] -> (length W <= n)%nat ->
  strictly_decreasing W -> Forall (fun y => (x < y)%Q) W ->
  (median (keep_last n (W ++ [x])) <= median W)%Q.
Proof.
  intros Hn Hne Hlen HW Hx.
  pose proof (decreasing_snoc W x HW Hx) as HW1.
  unfold median. rewrite (sort_asc_decreasing W HW).
  destruct (Nat.eq_dec (length W) n) as [Hfull|Hroom].
  - (* full window: the oldest reading leaves *)
    destruct W as [|h T]; [congruence|].
    assert (Hk : keep_last n ((h :: T) ++ [x]) = T ++ [x]).
    { unfold keep_last. rewrite length_app. cbn [length] in *.
      replace (S (length T) + 1 - n)%nat with 1%nat by lia. reflexivity. }
    rewrite Hk.
    assert (HT1 : strictly_decreasing (T ++ [x])).
    { apply StronglySorted_inv in HW1 as [H _]. exact H. }
    rewrite (sort_asc_decreasing _ HT1), rev_app_distr. cbn [rev app].
    apply middle_pointwise. apply ascending_shift.
    pose proof (rev_decreasing_ascending _ HW1) as Hasc.
    cbn [app rev] in Hasc. rewrite rev_app_distr in Hasc. exact Hasc.
  - rewrite keep_last_short by (rewrite length_app; simpl; lia).
    rewrite (sort_asc_decreasing _ HW1), rev_app_distr. cbn [rev app].
    apply middle_cons.
    + pose proof (rev_decreasing_ascending _ HW1) as Hasc.
      rewrite rev_app_distr in Hasc. exact Hasc.
    + destruct W; [congruence|]. cbn [rev]. intros E.
      apply (f_equal (@length Q)) in E. rewrite length_app in E. simpl in E. lia.
Qed.

(** ** The streaming monitor *)

Section Monitor.

Variable t : Training.
Variable w : WandB.
Variable m : Z.
Hypothesis steps_nonzero : device_steps t <> 0%Z.
Hypothesis largest_window :
  py_max (map (fun s => (s / device_steps t)%Z) (median_sizes w)) = Some m.
Hypothesis window_pos : (1 <= m)%Z.

Let M : nat := Z.to_nat m.
Let scaled (x : Q) : Q := (x / inject_Z (device_steps t))%Q.

Lemma window_nat_pos : (1 <= M)%nat.
Proof. unfold M. lia. Qed.

(** The state a call leaves behind: one entry appended to each window,
    each window cut to its last [M] entries. *)
Lemma call_state (self : WandbLog) (loss top_loss : Q) :
  fst (WandbLog_call t w self loss top_loss) =
  mkWandbLog (run self)
    (keep_last M (losses self ++ [scaled loss]))
    (keep_last M (accuracies self ++ [scaled top_loss]))
    (idx self + 1)
    (keep_last M (loss_medians self
                    ++ [median (keep_last M (losses self ++ [scaled loss]))])).
Proof.
  unfold WandbLog_call.
  destruct (Z.eqb_spec (device_steps t) 0) as [E|_]; [contradiction|].
  rewrite largest_window. rewrite !py_slice_keep_last by exact window_pos.
  fold M. fold (scaled loss). fold (scaled top_loss).
  repeat match goal with
  | |- context [match ?x with _ => _ end] => destruct x
  end; reflexivity.
Qed.

(** The verdict of a call, read off the trimmed median window. *)
Lemma call_not_improving (self : WandbLog) (loss top_loss : Q) :
  snd (WandbLog_call t w self loss top_loss) = Returned NotImproving ->
  exists oldest newest,
    head (loss_medians (fst (WandbLog_call t w self loss top_loss))) = Some oldest /\
    last (loss_medians (fst (WandbLog_call t w self loss top_loss))) = Some newest /\
    (oldest < newest * (1 - minimum_relative_loss_change (early_stopping t)))%Q.
Proof.
  rewrite call_state. cbn [loss_medians].
  unfold WandbLog_call.
  destruct (Z.eqb_spec (device_steps t) 0) as [E|_]; [contradiction|].
  rewrite largest_window. rewrite !py_slice_keep_last by exact window_pos.
  fold M. fold (scaled loss). fold (scaled top_loss).
  destruct (head _) as [oldest|] eqn:Eh; [|discriminate].
  destruct (last _) as [newest|] eqn:El; [|discriminate].
  destruct (Qlt_bool oldest _) eqn:Elt.
  - intros _. exists oldest, newest. split; [reflexivity|]. split; [reflexivity|].
    unfold Qlt_bool in Elt. apply negb_true_iff in Elt.
    apply Qnot_le_lt. intros Hle. apply Qle_bool_iff in Hle. congruence.
  - repeat match goal with
    | |- context [if ?x then _ else _] => destruct x
    end; discriminate.
Qed.

(** Feeding readings from any state whose windows are the trimmed ends of
    three equally long histories. *)
Lemma feed_windows (readings : list (Q * Q)) :
  forall (self : WandbLog) (hl ha hm : list Q),
  losses self = keep_last M hl ->
  accuracies self = keep_last M ha ->
  loss_medians self = keep_last M hm ->
  length hm = length hl ->
  let self' := fst (feed t w self readings) in
  losses self' = keep_last M (hl ++ map (fun x => scaled (fst x)) readings) /\
  accuracies self' = keep_last M (ha ++ map (fun x => scaled (snd x)) readings) /\
  exists hm',
    length hm' = (length hl + length readings)%nat /\
    loss_medians self' = keep_last M hm'.
Proof.
  pose proof window_nat_pos as HM.
  induction readings as [|[loss top_loss] rest IH]; intros self hl ha hm Hl Ha Hm Hlen.
  - simpl. rewrite !app_nil_r. split; [exact Hl|]. split; [exact Ha|].
    exists hm. split; [lia | exact Hm].
  - cbn [feed].
    pose proof (call_state self loss top_loss) as Hcall.
    destruct (WandbLog_call t w self loss top_loss) as [self1 out].
    cbn [fst] in Hcall.
    specialize (IH self1 (hl ++ [scaled loss]) (ha ++ [scaled top_loss])
                  (hm ++ [median (keep_last M (losses self ++ [scaled loss]))])).
    destruct (feed t w self1 rest) as [self2 outs]. cbn [fst] in *.
    cbn [map fst snd].
    destruct IH as [IHl [IHa [hm' [Hlen' IHm]]]].
    + rewrite Hcall. cbn [losses]. rewrite Hl. apply keep_last_snoc. exact HM.
    + rewrite Hcall. cbn [accuracies]. rewrite Ha. apply keep_last_snoc. exact HM.
    + rewrite Hcall. cbn [loss_medians]. rewrite Hm. apply keep_last_snoc. exact HM.
    + rewrite !length_app. cbn [length]. lia.
    + rewrite <- app_assoc in IHl, IHa.
      split; [exact IHl|]. split; [exact IHa|].
      exists hm'. split; [|exact IHm].
      rewrite Hlen', length_app. cbn [length]. lia.
Qed.


(** With at least one device step per call, the largest window counted in
    calls is at most the largest configured median size. *)
Lemma window_below_configured (mx : Z) :
  (1 <= device_steps t)%Z -> py_max (median_sizes w) = Some mx -> (m <= mx)%Z.
Proof.
  intros Hds Hmx.
  destruct (py_max_spec _ _ largest_window) as [Hin _].
  destruct (py_max_spec _ _ Hmx) as [_ Hle].
  apply in_map_iff in Hin as [s0 [Hs0 Hs0in]].
  rewrite List.Forall_forall in Hle. specialize (Hle s0 Hs0in).
  assert (Hs0pos : (0 < s0)%Z).
  { destruct (Z.le_gt_cases s0 0) as [Hneg|Hpos]; [|lia].
    assert (s0 / device_steps t <= 0)%Z by (apply Z.div_le_upper_bound; lia).
    lia. }
  assert (s0 / device_steps t <= s0)%Z by (apply Z.div_le_upper_bound; nia).
  lia.
Qed.


End Monitor.

Section DecreasingRun.

Variable t : Training.
Variable w : WandB.
Variable m : Z.
Hypothesis steps_pos : (1 <= device_steps t)%Z.
Hypothesis largest_window :
  py_max (map (fun s => (s / device_steps t)%Z) (median_sizes w)) = Some m.
Hypothesis window_pos : (1 <= m)%Z.
Hypothesis change_nonneg :
  (0 <= minimum_relative_loss_change (early_stopping t))%Q.

Let M : nat := Z.to_nat m.
Let scaled (x : Q) : Q := (x / inject_Z (device_steps t))%Q.

Lemma steps_nonzero_of_pos : device_steps t <> 0%Z.
Proof. lia. Qed.

Lemma stepsQ_pos : (0 < inject_Z (device_steps t))%Q.
Proof. change 0%Q with (inject_Z 0). rewrite <- Zlt_Qlt. lia. Qed.

Lemma scaled_nonneg (x : Q) : (0 <= x)%Q -> (0 <= scaled x)%Q.
Proof.
  intros Hx. unfold scaled. apply Qle_shift_div_l; [apply stepsQ_pos | lra].
Qed.

Lemma scaled_lt (x y : Q) : (x < y)%Q -> (scaled x < scaled y)%Q.
Proof.
  intros Hxy. unfold scaled, Qdiv.
  apply Qmult_lt_compat_r; [|exact Hxy].
  apply Qinv_lt_0_compat. apply stepsQ_pos.
Qed.

Lemma scaled_decreasing (l : list Q) :
  strictly_decreasing l -> strictly_decreasing (map scaled l).
Proof.
  induction 1 as [|a l _ IH Ha]; simpl; constructor; [exact IH|].
  apply Forall_map. eapply List.Forall_impl; [|exact Ha].
  intros y Hy. simpl. apply scaled_lt. exact Hy.
Qed.

(** One call on a smaller, non-negative reading keeps the run decreasing
    and does not report "not improving". *)
Lemma call_decreasing (self : WandbLog) (loss top_loss : Q) :
  decreasing_run M self ->
  (0 <= scaled loss)%Q ->
  Forall (fun y => (scaled loss < y)%Q) (losses self) ->
  decreasing_run M (fst (WandbLog_call t w self loss top_loss)) /\
  snd (WandbLog_call t w self loss top_loss) <> Returned NotImproving.
Proof.
  intros [Hdec [Hnn [Hlen [Hmd [Hmnn Hlast]]]]] Hx Hsmall.
  pose proof (call_not_improving t w m steps_nonzero_of_pos largest_window
                window_pos self loss top_loss) as Hfire.
  rewrite (call_state t w m steps_nonzero_of_pos largest_window window_pos) in Hfire.
  rewrite (call_state t w m steps_nonzero_of_pos largest_window window_pos).
  cbn [loss_medians losses] in Hfire |- *.
  fold M in Hfire |- *. fold (scaled loss) in Hfire |- *.
  assert (HM : (1 <= M)%nat) by (unfold M; lia).
  set (L' := keep_last M (losses self ++ [scaled loss])) in Hfire |- *.
  assert (HL'dec : strictly_decreasing L').
  { apply sorted_skipn. apply decreasing_snoc; assumption. }
  assert (HL'nn : nonnegative L').
  { destruct (keep_last_suffix M (losses self ++ [scaled loss])) as [pre Hpre].
    fold L' in Hpre.
    assert (Hall : nonnegative (losses self ++ [scaled loss])).
    { apply Forall_app. split; [exact Hnn | repeat constructor; exact Hx]. }
    unfold nonnegative in *. rewrite Hpre in Hall.
    apply Forall_app in Hall as [_ Hall]. exact Hall. }
  assert (HL'ne : L' <> []).
  { destruct (keep_last_nonempty M (losses self) (scaled loss) HM) as [pre Hpre].
    fold L' in Hpre. rewrite Hpre. destruct pre; discriminate. }
  assert (Hmed : Forall (fun y => (median L' <= y)%Q) (loss_medians self)).
  { destruct Hlast as [[_ ->]|[Hne Hl]]; [constructor|].
    pose proof (median_window_step M (losses self) (scaled loss) HM Hne Hlen
                  Hdec Hsmall) as Hstep.
    fold L' in Hstep.
    pose proof (sorted_last (fun a b => (b <= a)%Q) _ _ Qle_refl Hmd Hl) as Hge.
    eapply List.Forall_impl; [|exact Hge].
    intros y Hy. simpl in Hy. eapply Qle_trans; eassumption. }
  set (Md' := keep_last M (loss_medians self ++ [median L'])) in Hfire |- *.
  assert (HMd'desc : descending Md').
  { apply sorted_skipn. apply (sorted_snoc (fun a b => (b <= a)%Q)); assumption. }
  assert (HMd'nn : nonnegative Md').
  { destruct (keep_last_suffix M (loss_medians self ++ [median L'])) as [pre Hpre].
    fold Md' in Hpre.
    assert (Hall : nonnegative (loss_medians self ++ [median L'])).
    { apply Forall_app. split; [exact Hmnn|].
      repeat constructor. apply median_nonneg. exact HL'nn. }
    unfold nonnegative in *. rewrite Hpre in Hall.
    apply Forall_app in Hall as [_ Hall]. exact Hall. }
  assert (HMd'last : last Md' = Some (median L')).
  { destruct (keep_last_nonempty M (loss_medians self) (median L') HM) as [pre Hpre].
    fold Md' in Hpre. rewrite Hpre. apply last_snoc. }
  split.
  - split; [exact HL'dec|]. split; [exact HL'nn|]. split.
    { cbn [losses]. subst L'. rewrite keep_last_length. lia. }
    split; [exact HMd'desc|]. split; [exact HMd'nn|].
    right. split; assumption.
  - intros Hni. destruct (Hfire Hni) as [oldest [newest [Hh [Hl Hlt]]]].
    rewrite HMd'last in Hl. injection Hl as <-.
    pose proof (sorted_last (fun a b => (b <= a)%Q) _ _ Qle_refl HMd'desc HMd'last)
      as Hge.
    assert (Hold : (median L' <= oldest)%Q).
    { rewrite List.Forall_forall in Hge. apply Hge.
      destruct Md' as [|o rest]; [discriminate|].
      simpl in Hh. injection Hh as ->. left. reflexivity. }
    pose proof (median_nonneg L' HL'nn) as Hm0.
    nra.
Qed.

(** Feeding a strictly decreasing, non-negative sequence whose entries are
    all below the current window. *)
Lemma feed_decreasing (readings : list (Q * Q)) : forall self : WandbLog,
  decreasing_run M self ->
  strictly_decreasing (map (fun x => scaled (fst x)) readings) ->
  nonnegative (map (fun x => scaled (fst x)) readings) ->
  Forall (fun x => Forall (fun y => (x < y)%Q) (losses self))
         (map (fun x => scaled (fst x)) readings) ->
  Forall (fun o => o <> Returned NotImproving) (snd (feed t w self readings)).
Proof.
  induction readings as [|[loss top_loss] rest IH];
    intros self Hrun Hdec Hnn Hbelow; [constructor|].
  cbn [feed map fst] in *.
  apply StronglySorted_inv in Hdec as [Hdec Hhead].
  inversion Hnn as [|? ? Hx Hnn']; subst.
  inversion Hbelow as [|? ? Hsmall Hbelow']; subst.
  destruct (call_decreasing self loss top_loss Hrun Hx Hsmall) as [Hrun' Hout].
  pose proof (call_state t w m steps_nonzero_of_pos largest_window window_pos
                self loss top_loss) as Hstate.
  destruct (WandbLog_call t w self loss top_loss) as [self1 out].
  cbn [fst snd] in *.
  specialize (IH self1 Hrun' Hdec Hnn').
  destruct (feed t w self1 rest) as [self2 outs]. cbn [snd] in *.
  constructor; [exact Hout|]. apply IH.
  rewrite Hstate. cbn [losses].
  rewrite List.Forall_forall in Hhead, Hbelow'. apply List.Forall_forall.
  intros x Hxin.
  destruct (keep_last_suffix (Z.to_nat m) (losses self ++ [loss / inject_Z (device_steps t)]%Q))
    as [pre Hpre].
  assert (Hall : Forall (fun y => (x < y)%Q)
                   (losses self ++ [loss / inject_Z (device_steps t)]%Q)).
  { apply Forall_app. split; [apply Hbelow'; exact Hxin|].
    repeat constructor. apply Hhead. exact Hxin. }
  rewrite Hpre in Hall. apply Forall_app in Hall as [_ Hall]. exact Hall.
Qed.

(** When the test of the early-stopping rule succeeds on non-negative
    medians, the newest median has not come down from the oldest by the
    relative change. *)
Lemma fired_means_no_decrease (oldest newest : Q) :
  (0 <= oldest)%Q -> (0 <= newest)%Q ->
  (oldest < newest * (1 - minimum_relative_loss_change (early_stopping t)))%Q ->
  ~ (newest <= oldest * (1 - minimum_relative_loss_change (early_stopping t)))%Q.
Proof.
  set (c := minimum_relative_loss_change (early_stopping t)) in *.
  intros Ho Hn Hfire Hdown.
  destruct (Qlt_le_dec (1 - c) 0) as [Hneg|Hpos].
  - assert (newest * (1 - c) <= 0)%Q by nra. lra.
  - assert (newest * (1 - c) <= newest)%Q by nra.
    assert (oldest * (1 - c) <= oldest)%Q by nra. lra.
Qed.

(** C7. With at least one device step per call, a largest window of at
    least one call and a non-negative relative change, feeding the monitor
    a strictly decreasing sequence of non-negative losses, one call at a
    time from a fresh monitor, never makes it report "not improving",
    whatever the length of the sequence (in particular the length of the
    largest window).  A call reports "not improving" only when the oldest
    median in the window is below the newest median scaled by one minus
    the relative change; on non-negative medians the newest median has
    then not come down from the oldest by the relative change. *)
Theorem decreasing_losses_never_not_improving (r : bool) (readings : list (Q * Q)) :
  strictly_decreasing (map fst readings) ->
  nonnegative (map fst readings) ->
  Forall (fun o => o <> Returned NotImproving)
         (snd (feed t w (WandbLog_init r) readings)) /\
  (forall self loss top_loss,
     snd (WandbLog_call t w self loss top_loss) = Returned NotImproving ->
     exists oldest newest,
       head (loss_medians (fst (WandbLog_call t w self loss top_loss))) = Some oldest /\
       last (loss_medians (fst (WandbLog_call t w self loss top_loss))) = Some newest /\
       (oldest < newest * (1 - minimum_relative_loss_change (early_stopping t)))%Q /\
       ((0 <= oldest)%Q -> (0 <= newest)%Q ->
        ~ (newest <= oldest * (1 - minimum_relative_loss_change (early_stopping t)))%Q)).
Proof.
  intros Hdec Hnn. split.
  - apply feed_decreasing.
    + unfold decreasing_run, WandbLog_init. cbn [losses loss_medians length].
      split; [constructor|]. split; [constructor|]. split; [lia|].
      split; [constructor|]. split; [constructor|]. left. split; reflexivity.
    + rewrite <- (map_map fst scaled). apply scaled_decreasing. exact Hdec.
    + rewrite <- (map_map fst scaled). unfold nonnegative in *.
      apply Forall_map. eapply List.Forall_impl; [|exact Hnn].
      intros y Hy. simpl. apply scaled_nonneg. exact Hy.
    + apply List.Forall_forall. intros x _. constructor.
  - intros self loss top_loss Hfire.
    destruct (call_not_improving t w m steps_nonzero_of_pos largest_window
                window_pos self loss top_loss Hfire)
      as [oldest [newest [Hh [Hl Hlt]]]].
    exists oldest, newest. split; [exact Hh|]. split; [exact Hl|].
    split; [exact Hlt|]. intros Ho Hn. apply fired_means_no_decrease; assumption.
Qed.

End DecreasingRun.


Lemma decreasing_losses_never_not_improving_witness :
  (1 <= device_steps SampleRun.training)%Z /\
  py_max (map (fun s => (s / device_steps SampleRun.training)%Z)
              (median_sizes SampleRun.wandb)) = Some 3%Z /\
  (0 <= minimum_relative_loss_change (early_stopping SampleRun.training))%Q /\
  strictly_decreasing (map fst SampleReadings.falling) /\
  nonnegative (map fst SampleReadings.falling) /\
  length SampleReadings.falling = Z.to_nat 3 /\
  Forall (fun o => o <> Returned NotImproving)
         (snd (feed SampleRun.training SampleRun.wandb (WandbLog_init false)
                    SampleReadings.falling)).
Proof.
  assert (Hdec : strictly_decreasing (map fst SampleReadings.falling)).
  { repeat constructor. }
  assert (Hnn : nonnegative (map fst SampleReadings.falling)).
  { repeat constructor; discriminate. }
  split; [simpl; lia|]. split; [reflexivity|]. split; [discriminate|].
  split; [exact Hdec|]. split; [exact Hnn|]. split; [reflexivity|].
  apply (decreasing_losses_never_not_improving SampleRun.training SampleRun.wandb 3).
  - simpl; lia.
  - reflexivity.
  - lia.
  - discriminate.
  - exact Hdec.
  - exact Hnn.
Defined.

(** ** Axis arithmetic *)

Lemma py_range_length (a b : Z) : length (py_range a b) = Z.to_nat (b - a).
Proof. unfold py_range. rewrite length_map, length_seq. reflexivity. Qed.

Lemma py_range_cons (a b : Z) :
  (a < b)%Z -> py_range a b = a :: py_range (a + 1) b.
Proof.
  intros H. unfold py_range.
  replace (Z.to_nat (b - a)) with (S (Z.to_nat (b - (a + 1)))) by lia.
  cbn [seq map]. f_equal; [lia|].
  rewrite <- seq_shift, map_map. apply map_ext. intros i. lia.
Qed.

Lemma py_range_snoc (a b : Z) :
  (a < b)%Z -> py_range a b = py_range a (b - 1) ++ [(b - 1)%Z].
Proof.
  intros H. unfold py_range.
  replace (Z.to_nat (b - a)) with (S (Z.to_nat (b - 1 - a))) by lia.
  rewrite seq_S, map_app. cbn [map Nat.add]. do 2 f_equal. lia.
Qed.

Lemma py_range_bounds (a b x : Z) : In x (py_range a b) <-> (a <= x < b)%Z.
Proof.
  unfold py_range. rewrite in_map_iff. split.
  - intros [i [<- Hi]]. apply in_seq in Hi. lia.
  - intros H. exists (Z.to_nat (x - a)). split; [lia|]. apply in_seq. lia.
Qed.

Lemma py_range_map_ext (f : Z -> Z) (a b c : Z) :
  (forall x, (a <= x < b)%Z -> f x = (x + c)%Z) ->
  map f (py_range a b) = py_range (a + c) (b + c).
Proof.
  intros Hf. unfold py_range. rewrite map_map.
  replace (b + c - (a + c))%Z with (b - a)%Z by lia.
  apply map_ext_in. intros i Hi. apply in_seq in Hi.
  rewrite Hf by lia. lia.
Qed.

(** X1. On an array of positive rank, [pos_dim] turns every axis into a
    position in [0, ndim): an axis already there is kept, a negative axis
    [-k] (counting from the end) becomes [ndim - k], and normalising twice
    changes nothing.  On a rank-0 array a non-empty axis list is a
    [ZeroDivisionError], an empty one is returned as it is. *)
Theorem pos_dim_normalises (ndim : Z) (dims : list Z) :
  ((0 < ndim)%Z ->
   exists out,
     pos_dim ndim dims = Returned out /\
     Forall2 (fun d p =>
                (0 <= p < ndim)%Z /\
                ((0 <= d < ndim)%Z -> p = d) /\
                ((- ndim <= d < 0)%Z -> p = (d + ndim)%Z))
             dims out /\
     pos_dim ndim out = Returned out) /\
  (dims <> [] -> pos_dim 0 dims = Raised ZeroDivisionError) /\
  pos_dim 0 [] = Returned [].
Proof.
  split; [|split; [|reflexivity]].
  - intros Hpos.
    assert (Hne : (ndim =? 0)%Z = false) by (apply Z.eqb_neq; lia).
    exists (map (fun d => (d mod ndim)%Z) dims). split; [|split].
    + unfold pos_dim. destruct dims; [reflexivity|]. rewrite Hne. reflexivity.
    + induction dims as [|d dims IH]; simpl; constructor; [|exact IH].
      split; [apply Z.mod_pos_bound; lia|]. split.
      * intros Hd. apply Z.mod_small. exact Hd.
      * intros Hd. rewrite <- (Z.mod_small (d + ndim) ndim) by lia.
        rewrite <- (Z_mod_plus_full d 1 ndim). f_equal. lia.
    + unfold pos_dim. destruct dims as [|d dims]; [reflexivity|].
      cbn [map]. rewrite Hne. f_equal.
      f_equal; [apply Z.mod_mod; lia|].
      rewrite map_map. apply map_ext. intros x. apply Z.mod_mod. lia.
  - intros Hne. destruct dims; [congruence | reflexivity].
Qed.

Lemma pos_dim_range (ndim a b c : Z) :
  (a < b)%Z -> (0 < ndim)%Z ->
  (forall x, (a <= x < b)%Z -> (x mod ndim = x + c)%Z) ->
  pos_dim ndim (py_range a b) = Returned (py_range (a + c) (b + c)).
Proof.
  intros Hab Hn Hmod. unfold pos_dim.
  destruct (py_range a b) as [|x l] eqn:E.
  - apply (f_equal (@length Z)) in E. rewrite py_range_length in E. simpl in E. lia.
  - rewrite <- E. replace (ndim =? 0)%Z with false by (symmetry; apply Z.eqb_neq; lia).
    f_equal. apply py_range_map_ext. exact Hmod.
Qed.

(** X2. For [1 <= reduced_dims] no larger than either rank, [matmul] asks
    [lax.dot_general] to contract the last [reduced_dims] axes of the left
    operand with the first [reduced_dims] axes of the right one, in order
    and with no batch axes; with [reduced_dims <= 0] nothing is contracted. *)
Theorem matmul_contracts_trailing_with_leading (nl nr reduced_dims : Z) :
  ((1 <= reduced_dims <= nl)%Z -> (reduced_dims <= nr)%Z ->
   matmul_dimension_numbers nl nr reduced_dims =
   Returned ((py_range (nl - reduced_dims) nl, py_range 0 reduced_dims), ([], []))) /\
  ((reduced_dims <= 0)%Z ->
   matmul_dimension_numbers nl nr reduced_dims = Returned (([], []), ([], []))).
Proof.
  split.
  - intros Hl Hr. unfold matmul_dimension_numbers, dot_dimension_numbers.
    cbn [tuple_int and_then].
    rewrite (pos_dim_range nl (- reduced_dims) 0 nl) by
      (try lia; intros x Hx;
       rewrite <- (Z.mod_small (x + nl) nl) by lia;
       rewrite <- (Z_mod_plus_full x 1 nl); f_equal; lia).
    rewrite (pos_dim_range nr 0 reduced_dims 0) by
      (try lia; intros x Hx; rewrite Z.mod_small by lia; lia).
    cbn [and_then pos_dim].
    replace (- reduced_dims + nl)%Z with (nl - reduced_dims)%Z by lia.
    replace (0 + nl)%Z with nl by lia.
    replace (0 + 0)%Z with 0%Z by lia.
    replace (reduced_dims + 0)%Z with reduced_dims by lia.
    reflexivity.
  - intros Hr. unfold matmul_dimension_numbers, dot_dimension_numbers, py_range.
    replace (Z.to_nat (0 - - reduced_dims)) with 0%nat by lia.
    replace (Z.to_nat (reduced_dims - 0)) with 0%nat by lia.
    reflexivity.
Qed.

(** X3. For a weight of rank at least two, the layout [conv] builds is a
    permutation of the axes [0 .. ndim-1] (batch axis first, feature axis
    last, the [ndim - 2] spatial axes in between, in order), it is used for
    both the input and the output, the kernel keeps its axes in storage
    order, and there is one unit stride per spatial axis. *)
Theorem conv_layout_is_permutation (ndim : Z) :
  (2 <= ndim)%Z ->
  let dn := conv_dimension_numbers ndim in
  Permutation (lhs_spec dn) (py_range 0 ndim) /\
  lhs_spec dn = (0 :: (ndim - 1) :: py_range 1 (ndim - 1))%Z /\
  out_spec dn = lhs_spec dn /\
  rhs_spec dn = py_range 0 ndim /\
  length (conv_window_strides ndim) = length (py_range 1 (ndim - 1)).
Proof.
  intros Hn dn. subst dn. cbn [conv_dimension_numbers lhs_spec out_spec rhs_spec app].
  split; [|split; [reflexivity|split; [reflexivity|split; [reflexivity|]]]].
  - rewrite (py_range_cons 0 ndim) by lia. constructor.
    rewrite (py_range_snoc (0 + 1) ndim) by lia.
    replace (0 + 1)%Z with 1%Z by lia.
    change ((ndim - 1)%Z :: py_range 1 (ndim - 1))
      with ([(ndim - 1)%Z] ++ py_range 1 (ndim - 1)).
    apply Permutation_app_comm.
  - unfold conv_window_strides. rewrite repeat_length, py_range_length.
    f_equal. lia.
Qed.

(** X23. [dot(left, right, -1, 0, (), ())], the call the feed-forward
    layers make, contracts the last axis of the left operand with the
    first axis of the right one, which is what [matmul(left, right)] asks
    for by default.  An argument that is neither an int nor a tuple raises
    [ValueError], and on a left operand of rank zero normalising the axis
    [-1] divides by zero. *)
Theorem dot_last_with_first_is_matmul (nl nr : Z) :
  ((1 <= nl)%Z -> (1 <= nr)%Z ->
   dot_dimension_numbers nl nr (AnInt (-1)) (AnInt 0) (ATuple []) (ATuple [])
     = Returned (([nl - 1], [0]), ([], []))%Z /\
   matmul_dimension_numbers nl nr 1
     = dot_dimension_numbers nl nr (AnInt (-1)) (AnInt 0) (ATuple []) (ATuple [])) /\
  (forall right_contract left_batch right_batch,
     dot_dimension_numbers nl nr AnotherObject right_contract left_batch right_batch
       = Raised ValueError) /\
  (forall right_contract left_batch right_batch,
     dot_dimension_numbers 0 nr (AnInt (-1)) right_contract left_batch right_batch
       = Raised ZeroDivisionError).
Proof.
  split; [|split; intros; reflexivity].
  intros Hl Hr.
  assert (E : dot_dimension_numbers nl nr (AnInt (-1)) (AnInt 0) (ATuple []) (ATuple [])
              = Returned (([nl - 1], [0]), ([], []))%Z).
  { unfold dot_dimension_numbers, tuple_int, pos_dim. cbn [and_then map].
    destruct (Z.eqb_spec nl 0) as [E|_]; [lia|].
    destruct (Z.eqb_spec nr 0) as [E|_]; [lia|].
    cbn [and_then]. rewrite Z.mod_0_l by lia.
    replace (-1 mod nl)%Z with (nl - 1)%Z; [reflexivity|].
    apply Z.mod_unique with (q := (-1)%Z); lia. }
  split; [exact E|]. rewrite E.
  unfold matmul_dimension_numbers. exact E.
Qed.

(** ** The shapes inside [orthogonal_init] *)

Lemma py_getitem_app {A : Type} (pre suf : list A) (x : A) :
  py_getitem (pre ++ x :: suf) (Z.of_nat (length pre)) = Returned x.
Proof.
  unfold py_getitem. rewrite length_app. cbn [length].
  destruct (Z.ltb_spec (Z.of_nat (length pre)) 0); [lia|].
  destruct (Z.leb_spec 0 (Z.of_nat (length pre))); [|lia].
  destruct (Z.ltb_spec (Z.of_nat (length pre))
              (Z.of_nat (length pre + S (length suf)))); [|lia].
  cbn [andb]. rewrite Nat2Z.id.
  rewrite nth_error_app2 by lia. rewrite Nat.sub_diag. reflexivity.
Qed.

(** Reading the last entries of a list one index at a time. *)
Lemma getitem_trailing (suf : list nat) : forall pre : list nat,
  result_map (py_getitem (pre ++ suf))
             (map (fun i => Z.of_nat (length pre + i)) (seq 0 (length suf)))
  = Returned suf.
Proof.
  induction suf as [|x suf IH]; intros pre; [reflexivity|].
  cbn [length seq map result_map]. rewrite Nat.add_0_r, py_getitem_app.
  cbn [and_then].
  rewrite <- seq_shift, map_map.
  specialize (IH (pre ++ [x])). rewrite <- app_assoc in IH. cbn [app] in IH.
  rewrite length_app in IH. cbn [length] in IH.
  erewrite map_ext; [rewrite IH; reflexivity|].
  intros i. cbn beta. f_equal. lia.
Qed.

Lemma combine_seq_app (pre suf : list nat) (a : nat) :
  combine (seq a (length (pre ++ suf))) (pre ++ suf)
  = combine (seq a (length pre)) pre
    ++ combine (seq (a + length pre) (length suf)) suf.
Proof.
  revert a. induction pre as [|x pre IH]; intros a.
  - cbn [length app seq combine]. rewrite Nat.add_0_r. reflexivity.
  - cbn [length app seq combine]. rewrite IH. cbn [app].
    replace (S a + length pre)%nat with (a + S (length pre))%nat by lia.
    reflexivity.
Qed.

Lemma existsb_trailing (n m i : nat) :
  existsb (Z.eqb (Z.of_nat i)) (map (fun j => Z.of_nat (n + j)) (seq 0 m))
  = ((n <=? i) && (i <? n + m))%nat.
Proof.
  destruct ((n <=? i) && (i <? n + m))%nat eqn:E.
  - apply andb_true_iff in E as [E1 E2].
    apply Nat.leb_le in E1. apply Nat.ltb_lt in E2.
    apply existsb_exists. exists (Z.of_nat i). split; [|apply Z.eqb_refl].
    apply in_map_iff. exists (i - n)%nat. split; [f_equal; lia|].
    apply in_seq. lia.
  - apply not_true_is_false. intros H.
    apply existsb_exists in H as [z [Hz Heq]].
    apply in_map_iff in Hz as [j [<- Hj]]. apply in_seq in Hj.
    apply Z.eqb_eq in Heq.
    apply andb_false_iff in E as [E|E];
      [apply Nat.leb_gt in E | apply Nat.ltb_ge in E]; lia.
Qed.

(** Deleting the trailing positions leaves the leading entries. *)
Lemma np_delete_trailing (pre suf : list nat) :
  np_delete (pre ++ suf)
            (map (fun i => Z.of_nat (length pre + i)) (seq 0 (length suf)))
  = pre.
Proof.
  unfold np_delete.
  rewrite map_map.
  erewrite (map_ext _ (fun i => Z.of_nat (length pre + i))).
  2:{ intros i. destruct (Z.ltb_spec (Z.of_nat (length pre + i)) 0); [lia | reflexivity]. }
  rewrite combine_seq_app, List.filter_app, map_app. cbn [Nat.add].
  assert (Hkeep : forall a l, (a + length l <= length pre)%nat ->
            map snd (List.filter
              (fun p : nat * nat => negb (existsb (Z.eqb (Z.of_nat (fst p)))
                 (map (fun i => Z.of_nat (length pre + i)) (seq 0 (length suf)))))
              (combine (seq a (length l)) l)) = l).
  { intros a l. revert a. induction l as [|x l IH]; intros a Ha; [reflexivity|].
    cbn [length seq combine List.filter fst]. rewrite existsb_trailing.
    cbn [length] in Ha.
    replace (length pre <=? a)%nat with false by (symmetry; apply Nat.leb_gt; lia).
    cbn [andb negb map snd]. f_equal. apply IH. lia. }
  assert (Hdrop : forall a l, (length pre <= a)%nat ->
            (a + length l <= length pre + length suf)%nat ->
            map snd (List.filter
              (fun p : nat * nat => negb (existsb (Z.eqb (Z.of_nat (fst p)))
                 (map (fun i => Z.of_nat (length pre + i)) (seq 0 (length suf)))))
              (combine (seq a (length l)) l)) = []).
  { intros a l. revert a. induction l as [|x l IH]; intros a Ha Hb; [reflexivity|].
    cbn [length seq combine List.filter fst]. rewrite existsb_trailing.
    cbn [length] in Hb.
    replace (length pre <=? a)%nat with true by (symmetry; apply Nat.leb_le; lia).
    replace (a <? length pre + length suf)%nat with true
      by (symmetry; apply Nat.ltb_lt; lia).
    cbn [andb negb]. apply IH; lia. }
  rewrite (Hkeep 0%nat pre) by lia.
  rewrite (Hdrop (length pre) suf) by lia.
  apply app_nil_r.
Qed.

Lemma shape_size_app (pre suf : list nat) :
  shape_size (pre ++ suf) = (shape_size pre * shape_size suf)%nat.
Proof.
  unfold shape_size. induction pre as [|x pre IH]; simpl; [lia|].
  rewrite IH. lia.
Qed.

Lemma shape_size_pos (shape : list nat) :
  Forall (fun d => (1 <= d)%nat) shape -> (1 <= shape_size shape)%nat.
Proof.
  unfold shape_size. induction 1 as [|d shape Hd _ IH]; simpl; [lia | nia].
Qed.

Lemma column_range_trailing (pre suf : list nat) :
  column_range (pre ++ suf) (Z.of_nat (length suf))
  = map (fun i => Z.of_nat (length pre + i)) (seq 0 (length suf)).
Proof.
  unfold column_range, py_range. rewrite length_app.
  replace (Z.to_nat (Z.of_nat (length pre + length suf)
                     - (Z.of_nat (length pre + length suf) - Z.of_nat (length suf))))
    with (length suf) by lia.
  apply map_ext. intros i. lia.
Qed.

(** X4. For a shape of positive dimensions whose last [k] axes are the
    column axes (what [get_param] passes), [orthogonal_init] draws a
    Gaussian matrix with as many entries as the requested shape and at
    least as many rows as columns ([rows] being the product of the leading
    axes and [cols] that of the column axes, the larger one first),
    transposes the orthogonal factor exactly when [rows < cols], and
    reshapes the result to the requested shape itself. *)
Theorem orthogonal_init_keeps_shape (pre suf : list nat) :
  Forall (fun d => (1 <= d)%nat) (pre ++ suf) ->
  let shape := pre ++ suf in
  let rows := shape_size pre in
  let cols := shape_size suf in
  exists p,
    orthogonal_init_shapes shape (column_range shape (Z.of_nat (length suf)))
      = Returned p /\
    target_shape p = shape /\
    matrix_shape p = (Nat.max rows cols, Nat.min rows cols) /\
    (fst (matrix_shape p) * snd (matrix_shape p) = shape_size shape)%nat /\
    (transposed p = true <-> (rows < cols)%nat).
Proof.
  intros Hpos shape rows cols. subst shape.
  apply Forall_app in Hpos as [Hpre Hsuf].
  pose proof (shape_size_pos _ Hpre) as Hr. pose proof (shape_size_pos _ Hsuf) as Hc.
  fold rows in Hr. fold cols in Hc.
  unfold orthogonal_init_shapes.
  rewrite column_range_trailing, getitem_trailing. cbn [and_then].
  fold cols. replace (cols =? 0)%nat with false by (symmetry; apply Nat.eqb_neq; lia).
  rewrite shape_size_app. fold rows. fold cols.
  rewrite Nat.div_mul by lia. rewrite np_delete_trailing.
  eexists. split; [reflexivity|]. cbn [target_shape matrix_shape transposed].
  split; [reflexivity|].
  destruct (Nat.ltb_spec cols rows) as [Hlt|Hge].
  - split; [f_equal; lia|]. cbn [fst snd]. split; [reflexivity|].
    split; [intros H; apply Nat.ltb_lt in H; lia | lia].
  - split; [f_equal; lia|]. cbn [fst snd]. split; [lia|].
    split; [intros H; apply Nat.ltb_lt in H; exact H|].
    intros H. apply Nat.ltb_lt. exact H.
Qed.

(** ** Creating parameters *)

Lemma set_prng_key_same {T : Type} (c : Context T) : set_prng_key c (prng_key c) = c.
Proof. destruct c. reflexivity. Qed.

Section ParameterCreation.

Variable cast : dtype -> Q -> Q.
Variable prefixed_name : Context ndarray -> string -> string.
Variable random_split : Z -> Z * Z.
Variable random_normal : Z -> list nat -> dtype -> ndarray.
Variable orthogonal_init :
  Context ndarray -> list nat -> nat -> ndarray * Context ndarray.

(** The qualified name is built from the prefix of the context and the
    leaf name. *)
Hypothesis prefix_only :
  forall (c c' : Context ndarray) (name : string),
    name_prefix c = name_prefix c' -> prefixed_name c name = prefixed_name c' name.

(** [orthogonal_init] touches the context only through [normal], that is
    through the generator key. *)
Hypothesis orthogonal_threads_key :
  forall (c : Context ndarray) (shape : list nat) (k : nat),
    exists key, snd (orthogonal_init c shape k) = set_prng_key c key.

Lemma creation_tail (ctx : Context ndarray) (name : string) (key : Z)
    (param : ndarray) (storage computation : dtype) (variance : Q)
    (v : ndarray) (ctx' : Context ndarray) :
  match
    parameters
      (assign prefixed_name
         (set_parameter_variance (set_prng_key ctx key)
            (<[prefixed_name ctx name := variance]>
               (parameter_variance (set_prng_key ctx key))))
         name (astype cast param storage))
    !! prefixed_name ctx name
  with
  | Some stored =>
      Returned (astype cast stored computation,
                assign prefixed_name
                  (set_parameter_variance (set_prng_key ctx key)
                     (<[prefixed_name ctx name := variance]>
                        (parameter_variance (set_prng_key ctx key))))
                  name (astype cast param storage))
  | None => Raised KeyError
  end = Returned (v, ctx') ->
  parameters ctx' =
    <[prefixed_name ctx name := astype cast param storage]> (parameters ctx) /\
  parameter_variance ctx' =
    <[prefixed_name ctx name := variance]> (parameter_variance ctx) /\
  name_prefix ctx' = name_prefix ctx /\
  model ctx' = model ctx /\
  prng_key ctx' = key /\
  v = astype cast (astype cast param storage) computation.
Proof.
  unfold assign.
  rewrite (prefix_only (set_parameter_variance (set_prng_key ctx key) _) ctx name)
    by reflexivity.
  cbn [parameters set_parameters]. rewrite lookup_insert_eq.
  intros H. injection H as <- <-.
  split; [reflexivity|]. split; [reflexivity|]. split; [reflexivity|].
  split; [reflexivity|]. split; reflexivity.
Qed.

Lemma get_param_fresh (ctx : Context ndarray) (name : string)
    (shape : option (list nat)) (std mean : option Q) (column_axes : nat)
    (scale post_variance_scale lr_scale : Q) (dt : option dtype)
    (init_val : option ndarray) (v : ndarray) (ctx' : Context ndarray) :
  parameters ctx !! prefixed_name ctx name = None ->
  get_param cast prefixed_name random_split random_normal orthogonal_init
            ctx name shape std mean column_axes scale post_variance_scale
            lr_scale dt init_val = Returned (v, ctx') ->
  exists param key,
    parameters ctx' =
      <[prefixed_name ctx name :=
          astype cast param (default (storage_dtype (model ctx)) dt)]>
        (parameters ctx) /\
    parameter_variance ctx' =
      <[prefixed_name ctx name := (lr_scale * scale)%Q]> (parameter_variance ctx) /\
    name_prefix ctx' = name_prefix ctx /\
    model ctx' = model ctx /\
    prng_key ctx' = key /\
    v = astype cast (astype cast param (default (storage_dtype (model ctx)) dt))
               (default (computation_dtype (model ctx)) dt) /\
    (init_val <> None -> key = prng_key ctx).
Proof.
  intros Hfresh. unfold get_param. rewrite Hfresh.
  destruct init_val as [init|].
  - intros H.
    pose proof (creation_tail ctx name (prng_key ctx)
                  (nd_map (fun q => (q * scale * post_variance_scale)%Q) init)
                  (default (storage_dtype (model ctx)) dt)
                  (default (computation_dtype (model ctx)) dt)
                  (lr_scale * scale)%Q v ctx') as Htail.
    rewrite set_prng_key_same in Htail.
    destruct (Htail H) as [H1 [H2 [H3 [Hm [H4 H5]]]]].
    eexists. exists (prng_key ctx).
    split; [exact H1|]. split; [exact H2|]. split; [exact H3|].
    split; [exact Hm|]. split; [exact H4|]. split; [exact H5|]. reflexivity.
  - destruct std as [s|], mean as [mn|], shape as [sh|]; try discriminate;
      try (unfold normal; destruct (random_split (prng_key ctx)) as [new_key key];
           intros H; apply creation_tail in H;
           destruct H as [H1 [H2 [H3 [Hm [H4 H5]]]]];
           eexists; exists new_key;
           split; [exact H1|]; split; [exact H2|]; split; [exact H3|];
           split; [exact Hm|]; split; [exact H4|]; split; [exact H5 | congruence]).
    destruct (orthogonal_threads_key ctx sh column_axes) as [key Hkey].
    destruct (orthogonal_init ctx sh column_axes) as [p0 c0]. cbn [snd] in Hkey.
    subst c0. intros H. apply creation_tail in H.
    destruct H as [H1 [H2 [H3 [Hm [H4 H5]]]]].
    eexists. exists key.
    split; [exact H1|]. split; [exact H2|]. split; [exact H3|].
    split; [exact Hm|]. split; [exact H4|]. split; [exact H5 | congruence].
Qed.

(** X5. When [get_param] creates a parameter, the store gains exactly that
    name (holding the new tensor cast to the storage type), the variance
    table gains [lr_scale * scale] under it, a caller-supplied initial
    value consumes no randomness, and every later call for the name, with
    whatever shape, initialiser or scales, returns the very same tensor
    and leaves the context alone: a name is initialised at most once. *)
Theorem get_param_created_once (ctx : Context ndarray) (name : string)
    (shape : option (list nat)) (std mean : option Q) (column_axes : nat)
    (scale post_variance_scale lr_scale : Q) (dt : option dtype)
    (init_val : option ndarray) (v : ndarray) (ctx' : Context ndarray) :
  parameters ctx !! prefixed_name ctx name = None ->
  get_param cast prefixed_name random_split random_normal orthogonal_init
            ctx name shape std mean column_axes scale post_variance_scale
            lr_scale dt init_val = Returned (v, ctx') ->
  (exists stored,
     parameters ctx' = <[prefixed_name ctx name := stored]> (parameters ctx) /\
     v = astype cast stored (default (computation_dtype (model ctx)) dt)) /\
  parameter_variance ctx' =
    <[prefixed_name ctx name := (lr_scale * scale)%Q]> (parameter_variance ctx) /\
  (init_val <> None -> prng_key ctx' = prng_key ctx) /\
  (forall shape2 std2 mean2 column_axes2 scale2 post_variance_scale2 lr_scale2
          init_val2,
     get_param cast prefixed_name random_split random_normal orthogonal_init
               ctx' name shape2 std2 mean2 column_axes2 scale2
               post_variance_scale2 lr_scale2 dt init_val2 = Returned (v, ctx')).
Proof.
  intros Hfresh Hcall.
  destruct (get_param_fresh _ _ _ _ _ _ _ _ _ _ _ _ _ Hfresh Hcall)
    as [param [key [Hp [Hv [Hpre [Hm [Hk [-> Hkey]]]]]]]].
  split; [eexists; split; [exact Hp | reflexivity]|]. split; [exact Hv|].
  split; [intros Hinit; rewrite Hk; apply Hkey; exact Hinit|].
  intros. unfold get_param.
  rewrite (prefix_only ctx' ctx name Hpre), Hp, lookup_insert_eq, Hm.
  reflexivity.
Qed.

(** Rounding to a floating-point type sends zero to zero. *)
Hypothesis cast_zero : forall (d : dtype) (q : Q), (q == 0)%Q -> (cast d q == 0)%Q.

(** X6. On a fresh name [zero_param] stores a tensor whose entries are all
    zero, of the shape of the draw, and returns one too; yet it takes the
    Gaussian path of [get_param], so one split of the generator key is
    consumed, and it records a learning-rate scale of one. *)
Theorem zero_param_is_zero_but_draws (ctx : Context ndarray) (name : string)
    (shape : list nat) (dt : option dtype) :
  parameters ctx !! prefixed_name ctx name = None ->
  exists v ctx' stored,
    zero_param cast prefixed_name random_split random_normal orthogonal_init
               ctx name shape dt = Returned (v, ctx') /\
    parameters ctx' !! prefixed_name ctx name = Some stored /\
    all_zero (nd_data stored) /\ all_zero (nd_data v) /\
    nd_shape stored =
      nd_shape (random_normal (snd (random_split (prng_key ctx))) shape
                              (storage_dtype (model ctx))) /\
    nd_shape v = nd_shape stored /\
    prng_key ctx' = fst (random_split (prng_key ctx)) /\
    (exists s, parameter_variance ctx' !! prefixed_name ctx name = Some s /\ (s == 1)%Q).
Proof.
  intros Hfresh. unfold zero_param, get_param. rewrite Hfresh.
  unfold normal. destruct (random_split (prng_key ctx)) as [new_key key] eqn:Esplit.
  cbn [fst snd]. unfold assign.
  rewrite (prefix_only (set_parameter_variance (set_prng_key ctx new_key) _) ctx name)
    by reflexivity.
  cbn [parameters set_parameters]. rewrite lookup_insert_eq.
  eexists. eexists. eexists. split; [reflexivity|].
  cbn [parameters set_parameters set_parameter_variance parameter_variance
       set_prng_key prng_key storage_dtype model].
  rewrite !lookup_insert_eq.
  split; [reflexivity|].
  assert (Hz : forall d, all_zero (nd_data (astype cast
            (nd_map (fun q => (q + 0)%Q)
               (nd_map (fun q => (q * 0)%Q)
                  (nd_map (fun q => (q * 1)%Q)
                     (random_normal key shape (storage_dtype (model ctx)))))) d))).
  { intros d. unfold astype, nd_map, all_zero. cbn [nd_data].
    rewrite !map_map. apply Forall_map. apply List.Forall_forall.
    intros q _. cbn beta. apply cast_zero. ring. }
  split; [apply Hz|]. split.
  { unfold astype at 1. unfold nd_map at 1. cbn [nd_data].
    unfold all_zero. apply Forall_map.
    eapply List.Forall_impl; [|apply Hz]. intros q Hq. cbn beta.
    apply cast_zero. exact Hq. }
  split; [reflexivity|]. split; [reflexivity|]. split; [reflexivity|].
  eexists. split; [reflexivity|]. ring.
Qed.

End ParameterCreation.

(** ** More on the reversible engine *)

Lemma int32_wrap_add_l (a b : Z) :
  Int32.wrap (Int32.wrap a + b) = Int32.wrap (a + b).
Proof.
  unfold Int32.wrap.
  replace ((a + 2 ^ 31) mod 2 ^ 32 - 2 ^ 31 + b + 2 ^ 31)%Z
    with ((a + 2 ^ 31) mod 2 ^ 32 + b)%Z by lia.
  rewrite Zplus_mod_idemp_l. do 2 f_equal. lia.
Qed.

Section EngineChains.

Variable index : Type.
Variable add_to_prefix : Context (tensor index) -> string -> Context (tensor index).
Variable pullback :
  (gmap string (tensor index) -> tensor index -> tensor index) ->
  gmap string (tensor index) -> tensor index -> tensor index ->
  gmap string (tensor index) * tensor index.
Variable conv_block feed_forward : body_fn index.

Implicit Types (ctx : Context (tensor index)) (fn : rev_fn index).
Implicit Types (params : gmap string (tensor index)) (x y : tensor index).

Lemma base_respects ctx saved fn params x y :
  respects_tensor_eq fn -> tensor_eq x y ->
  tensor_eq (fst (base add_to_prefix ctx saved fn params x))
            (fst (base add_to_prefix ctx saved fn params y)).
Proof.
  intros Hfn Hxy. unfold base.
  pose proof (Hfn (set_parameters (add_to_prefix (set_name_cache ctx saved) "reversible") params)
                  x y
                  (depth_index (set_parameters
                     (add_to_prefix (set_name_cache ctx saved) "reversible") params))
                  Hxy) as H.
  destruct (fn _ x _) as [ox cx]. destruct (fn _ y _) as [oy cy]. exact H.
Qed.

Lemma reversible_depth_index ctx fn src :
  depth_index (snd (reversible add_to_prefix ctx fn src)) = depth_index ctx.
Proof.
  destruct src as [[[[params x0] x0b] x1] x1b].
  unfold reversible. destruct (is_initializing ctx).
  - destruct (fn _ x1 _) as [out c]. reflexivity.
  - unfold base. destruct (fn _ x1 _) as [out c]. reflexivity.
Qed.

Lemma reversible_parameters ctx fn src :
  is_initializing ctx = false ->
  fst (fst (fst (fst (fst (reversible add_to_prefix ctx fn src)))))
  = fst (fst (fst (fst src))).
Proof.
  intros Hexec. destruct src as [[[[params x0] x0b] x1] x1b].
  rewrite reversible_executing by assumption. reflexivity.
Qed.

(** One [block] call: the index it hands on, and the parameters. *)
Lemma block_index_and_parameters ctx src idx :
  snd (fst (block add_to_prefix conv_block feed_forward ctx (src, idx)))
    = Int32.wrap (idx + 2) /\
  (is_initializing ctx = false ->
   fst (fst (fst (fst (fst (fst (block add_to_prefix conv_block feed_forward
                                        ctx (src, idx)))))))
   = fst (fst (fst (fst src)))).
Proof.
  unfold block.
  set (c0 := set_depth_index ctx idx).
  pose proof (reversible_depth_index c0 (momentumnet_main c0 conv_block) src) as D1.
  pose proof (reversible_keeps_mode index add_to_prefix c0
                (momentumnet_main c0 conv_block) src) as M1.
  pose proof (reversible_parameters c0 (momentumnet_main c0 conv_block) src) as P1.
  destruct (reversible add_to_prefix c0 (momentumnet_main c0 conv_block) src)
    as [s1 c1]. cbn [fst snd] in D1, M1, P1.
  pose proof (reversible_depth_index c1 (momentumnet_side c1) s1) as D2.
  pose proof (reversible_keeps_mode index add_to_prefix c1 (momentumnet_side c1) s1) as M2.
  pose proof (reversible_parameters c1 (momentumnet_side c1) s1) as P2.
  destruct (reversible add_to_prefix c1 (momentumnet_side c1) s1) as [s2 c2].
  cbn [fst snd] in D2, M2, P2.
  set (c2' := set_depth_index c2 (Int32.add (depth_index c2) 1)).
  pose proof (reversible_depth_index c2' (momentumnet_main c2' feed_forward) s2) as D3.
  pose proof (reversible_keeps_mode index add_to_prefix c2'
                (momentumnet_main c2' feed_forward) s2) as M3.
  pose proof (reversible_parameters c2' (momentumnet_main c2' feed_forward) s2) as P3.
  destruct (reversible add_to_prefix c2' (momentumnet_main c2' feed_forward) s2)
    as [s3 c3]. cbn [fst snd] in D3, M3, P3.
  pose proof (reversible_depth_index c3 (momentumnet_side c3) s3) as D4.
  pose proof (reversible_parameters c3 (momentumnet_side c3) s3) as P4.
  destruct (reversible add_to_prefix c3 (momentumnet_side c3) s3) as [s4 c4].
  cbn [fst snd] in D4, P4 |- *.
  split.
  - rewrite D4, D3. subst c2'. cbn [depth_index set_depth_index].
    rewrite D2, D1. subst c0. cbn [depth_index set_depth_index].
    unfold Int32.add. rewrite int32_wrap_add_l. f_equal. lia.
  - intros Hexec.
    assert (H0 : is_initializing c0 = false) by exact Hexec.
    assert (H1 : is_initializing c1 = false) by congruence.
    assert (H2 : is_initializing c2' = false) by (subst c2'; cbn; congruence).
    assert (H3 : is_initializing c3 = false) by congruence.
    rewrite (P4 H3), (P3 H2), (P2 H1), (P1 H0). reflexivity.
Qed.

(** X7. [loop] hands on a depth index advanced by two per block, wrapped to
    32 bits (each block runs two engine steps at [idx] and two at
    [idx + 1]); and in executing mode the parameter dictionary of the state
    comes out as it went in. *)
Theorem loop_counts_two_per_block (steps : nat) : forall ctx src idx,
  Int32.in_range idx ->
  snd (fst (loop add_to_prefix conv_block feed_forward steps ctx (src, idx)))
    = Int32.wrap (idx + 2 * Z.of_nat steps) /\
  (is_initializing ctx = false ->
   fst (fst (fst (fst (fst (fst (loop add_to_prefix conv_block feed_forward
                                      steps ctx (src, idx)))))))
   = fst (fst (fst (fst src)))).
Proof.
  induction steps as [|n IH]; intros ctx src idx Hidx.
  - cbn [loop fst snd]. split; [|reflexivity].
    rewrite Z.mul_0_r, Z.add_0_r. symmetry. apply int32_wrap_small. exact Hidx.
  - cbn [loop].
    destruct (block_index_and_parameters ctx src idx) as [Bi Bp].
    pose proof (block_keeps_mode index add_to_prefix conv_block feed_forward
                  ctx (src, idx)) as Bm.
    destruct (block add_to_prefix conv_block feed_forward ctx (src, idx))
      as [[s' idx'] ctx']. cbn [fst snd] in Bi, Bp, Bm.
    assert (Hidx' : Int32.in_range idx').
    { rewrite Bi. unfold Int32.in_range, Int32.wrap, Int32.min_signed, Int32.max_signed.
      pose proof (Z.mod_pos_bound (idx + 2 + 2 ^ 31) (2 ^ 32) ltac:(lia)). lia. }
    destruct (IH ctx' s' idx' Hidx') as [Li Lp]. split.
    + rewrite Li, Bi, int32_wrap_add_l. f_equal. lia.
    + intros Hexec. rewrite Lp by congruence. apply Bp. exact Hexec.
Qed.

(** One backward rule, run later on a context that differs from the one
    of its forward step in the name cache only, and fed values that are
    entry-wise those the forward step produced. *)
Lemma grad_step ctx cache fn params x0 x1 d_params dy0 dy1 y0 y1 :
  tensor_eq (fst (base add_to_prefix ctx (name_cache ctx) fn params y0))
            (fst (base add_to_prefix ctx (name_cache ctx) fn params x1)) ->
  tensor_eq y0 x1 ->
  tensor_eq y1 (tadd (fst (base add_to_prefix ctx (name_cache ctx) fn params x1)) x0) ->
  let '(_, _, r0, _, r1) :=
    reversible_grad add_to_prefix pullback (set_name_cache ctx cache)
                    (name_cache ctx) fn params (d_params, dy0, y0, dy1, y1) in
  tensor_eq r0 x0 /\ tensor_eq r1 x1.
Proof.
  intros Hf Hy0 Hy1. unfold reversible_grad, jax_vjp.
  match goal with
  | |- context [pullback ?g ?p ?y ?d] => destruct (pullback g p y d) as [dp dx]
  end.
  split; [|exact Hy0].
  change (fst (base add_to_prefix (set_name_cache ctx cache) (name_cache ctx)
                    fn params y0))
    with (fst (base add_to_prefix ctx (name_cache ctx) fn params y0)).
  intros i. unfold tsub. rewrite (Hy1 i), (Hf i). unfold tadd. ring.
Qed.

(** X8. One momentum layer, as [block] composes it: two [reversible] steps
    in a row, the first with a block function that respects entry-wise
    equality.  Running the backward rules in reverse order on the context
    the forward steps left behind, each with the name cache saved when its
    step was entered and starting from what [revnet_out]'s backward rule
    hands over, reconstructs both rails of the state the layer started
    from, entry for entry. *)
Theorem momentum_layer_round_trip ctx (f1 f2 : rev_fn index) params
    x0 x0_backup x1 x1_backup d_params dy :
  is_initializing ctx = false ->
  respects_tensor_eq f1 ->
  let step1 := reversible add_to_prefix ctx f1 (params, x0, x0_backup, x1, x1_backup) in
  let step2 := reversible add_to_prefix (snd step1) f2 (fst step1) in
  let '(dy_a, y0, dy_b, y1) := revnet_out_grad (rails (fst step2)) dy in
  let '(d_params2, g0, v0, g1, v1) :=
    reversible_grad add_to_prefix pullback (snd step2) (name_cache (snd step1))
                    f2 params (d_params, dy_a, y0, dy_b, y1) in
  let '(_, _, r0, _, r1) :=
    reversible_grad add_to_prefix pullback (snd step2) (name_cache ctx)
                    f1 params (d_params2, g0, v0, g1, v1) in
  tensor_eq r0 x0 /\ tensor_eq r1 x1.
Proof.
  intros Hexec Hf1 step1 step2. subst step2 step1.
  rewrite (reversible_executing index add_to_prefix ctx f1) by assumption.
  cbn [fst snd].
  destruct (base_leaves_context index add_to_prefix ctx (name_cache ctx) f1 params x1)
    as [cache1 Hc1].
  rewrite Hc1.
  set (c1 := set_name_cache ctx cache1).
  set (o1 := tadd (fst (base add_to_prefix ctx (name_cache ctx) f1 params x1)) x0).
  rewrite (reversible_executing index add_to_prefix c1 f2) by exact Hexec.
  cbn [fst snd rails revnet_out_grad].
  destruct (base_leaves_context index add_to_prefix c1 (name_cache c1) f2 params o1)
    as [cache2 Hc2].
  rewrite Hc2.
  set (o2 := tadd (fst (base add_to_prefix c1 (name_cache c1) f2 params o1)) x1).
  (* the second step's rule gives back the rails between the two steps *)
  pose proof (grad_step c1 cache2 f2 params x1 o1 d_params dy dy o1 o2
                (tensor_eq_refl index _) (tensor_eq_refl index _)
                (tensor_eq_refl index _)) as H2.
  destruct (reversible_grad add_to_prefix pullback (set_name_cache c1 cache2)
              (name_cache c1) f2 params (d_params, dy, o1, dy, o2))
    as [[[[dp2 g0] v0] g1] v1].
  destruct H2 as [Hv0 Hv1].
  (* the first step's rule then gives back the rails the layer started from *)
  pose proof (grad_step ctx cache2 f1 params x0 x1 dp2 g0 g1 v0 v1
                (base_respects ctx (name_cache ctx) f1 params v0 x1 Hf1 Hv0)
                Hv0 Hv1) as H1.
  change (set_name_cache c1 cache2) with (set_name_cache ctx cache2).
  destruct (reversible_grad add_to_prefix pullback (set_name_cache ctx cache2)
              (name_cache ctx) f1 params (dp2, g0, v0, g1, v1))
    as [[[[dp1 h0] r0] h1] r1].
  exact H1.
Qed.


End EngineChains.

(** ** The normalisation function *)

Lemma Qsum_map_scale (c : Q) (l : list Q) :
  (Qsum (map (fun x : Q => (x * c)%Q) l) == Qsum l * c)%Q.
Proof. induction l as [|x l IH]; simpl; [ring|]. rewrite IH. ring. Qed.

Lemma Qsum_map_shift (c : Q) (l : list Q) :
  (Qsum (map (fun x : Q => (x - c)%Q) l) == Qsum l - inject_Z (Z.of_nat (length l)) * c)%Q.
Proof.
  induction l as [|x l IH].
  - simpl. change (inject_Z 0) with 0%Q. ring.
  - cbn [map Qsum fold_right length]. fold (Qsum (map (fun x : Q => (x - c)%Q) l)). fold (Qsum l).
    rewrite IH, Nat2Z.inj_succ. unfold Z.succ. rewrite inject_Z_plus.
    change (inject_Z 1) with 1%Q. ring.
Qed.

Lemma length_pos_Q (l : list Q) :
  l <> [] -> ~ (inject_Z (Z.of_nat (length l)) == 0)%Q.
Proof.
  intros Hne H. destruct l as [|x l]; [congruence|].
  assert (0 < inject_Z (Z.of_nat (length (x :: l))))%Q.
  { change 0%Q with (inject_Z 0). rewrite <- Zlt_Qlt. simpl. lia. }
  lra.
Qed.

(** Subtracting the mean leaves entries that sum to zero. *)
Lemma Qsum_minus_mean (l : list Q) :
  (Qsum (map (fun x : Q => (x - row_mean l)%Q) l) == 0)%Q.
Proof.
  destruct l as [|x l]; [reflexivity|].
  rewrite Qsum_map_shift. unfold row_mean.
  pose proof (length_pos_Q (x :: l) ltac:(discriminate)) as Hn.
  field. exact Hn.
Qed.

Lemma row_mean_shift (c : Q) (row : list Q) :
  row <> [] -> (row_mean (map (fun x : Q => (x + c)%Q) row) == row_mean row + c)%Q.
Proof.
  intros Hne. unfold row_mean. rewrite length_map.
  assert (Hs : (Qsum (map (fun x : Q => (x + c)%Q) row)
                == Qsum row + inject_Z (Z.of_nat (length row)) * c)%Q).
  { clear Hne. induction row as [|x row IH].
    - simpl. change (inject_Z 0) with 0%Q. ring.
    - cbn [map Qsum fold_right length].
      fold (Qsum (map (fun x : Q => (x + c)%Q) row)). fold (Qsum row).
      rewrite IH, Nat2Z.inj_succ. unfold Z.succ. rewrite inject_Z_plus.
      change (inject_Z 1) with 1%Q. ring. }
  rewrite Hs. field. apply length_pos_Q. exact Hne.
Qed.

Lemma row_mean_scale (c : Q) (row : list Q) :
  (row_mean (map (Qmult c) row) == c * row_mean row)%Q.
Proof.
  unfold row_mean. rewrite length_map.
  assert (Hs : (Qsum (map (Qmult c) row) == c * Qsum row)%Q).
  { induction row as [|x row IH]; simpl; [ring|]. rewrite IH. ring. }
  rewrite Hs. unfold Qdiv. ring.
Qed.

Lemma Forall2_map_same (f g : Q -> Q) (l : list Q) :
  (forall x, (f x == g x)%Q) -> Forall2 Qeq (map f l) (map g l).
Proof. intros H. induction l; simpl; constructor; auto. Qed.

Section NormalizeFacts.

Variable norm_scale : list Q -> Q.

(** X10. The value of the normalisation function is mean-centred: every
    row of it sums to zero, whatever the learned scalar; and adding a
    constant to all the features of the (non-empty) rows does not change
    it. *)
Theorem normalize_is_centred (src : list (list Q)) (param c : Q) :
  Forall (fun row => (Qsum row == 0)%Q) (normalize_fn src param) /\
  (Forall (fun row => row <> []) src ->
   Forall2 (Forall2 Qeq)
     (normalize_fn (map (map (fun x => (x + c)%Q)) src) param)
     (normalize_fn src param)).
Proof.
  split.
  - unfold normalize_fn. apply Forall_map. apply List.Forall_forall.
    intros row _. cbn beta. unfold centre.
    rewrite Qsum_map_scale, Qsum_minus_mean. ring.
  - intros Hne. unfold normalize_fn. rewrite map_map.
    induction Hne as [|row src Hrow _ IH]; cbn [map]; constructor; [|exact IH].
    unfold centre. rewrite !map_map.
    apply Forall2_map_same. intros x. cbn beta.
    rewrite (row_mean_shift c row Hrow). ring.
Qed.


(** X12. The gradient that the backward rule returns for the input sums to
    zero along every row, for any incoming gradient of the shape of the
    input and any value of the reciprocal root-mean-square: it has no component along a shift of the
    features. *)
Theorem normalize_grad_is_centred (src : list (list Q)) (param : Q)
    (dy : list (list Q)) :
  Forall2 (fun row g => length row = length g) src dy ->
  Forall (fun row => (Qsum row == 0)%Q)
         (fst (normalize_grad norm_scale src param dy)).
Proof.
  intros _. unfold normalize_grad. cbn [fst]. apply Forall_map. apply List.Forall_forall.
  intros [row g] _. cbn [fst snd]. unfold normalize_row_grad.
  apply Qsum_minus_mean.
Qed.

End NormalizeFacts.

(** ** The two losses of one call *)

(** The outcome of [compute] under a training configuration. *)
Lemma compute_orders_losses (t : Training) (batch : Z) (losses : list Q) :
  Z.of_nat (length losses) = batch ->
  (1 <= batch)%Z ->
  (1 <= loss_top_snap t)%Z ->
  (0 < loss_top_p t)%Q ->
  exists top loss,
    compute t batch losses = Returned (top, loss) /\
    (loss <= top)%Q /\
    ((1 <= loss_top_p t)%Q -> top = loss).
Proof.
  intros Hlen Hbatch Hsnap Hp.
  destruct t as [ds p snap es]. cbn [loss_top_snap loss_top_p] in *.
  set (t := mkTraining ds p snap es).
  destruct (compute_top t batch Hbatch Hsnap p losses Hp Hlen) as [top [E M]].
  destruct (top_count_cases t batch Hbatch Hsnap p Hp) as [_ B].
  change (with_loss_top_p t p) with t in E, M, B.
  exists top, (Qsum losses / inject_Z batch)%Q.
  split; [exact E|]. split.
  - rewrite M. rewrite <- Hlen at 1. rewrite mean_of_all, Hlen.
    apply mean_of_worst_antitone; lia.
  - intros H1. unfold compute in E.
    assert (Elt : Qlt_bool (loss_top_p t) 1 = false).
    { unfold Qlt_bool. apply negb_false_iff. apply Qle_bool_iff. exact H1. }
    rewrite Elt in E. cbn [andb] in E.
    destruct (loss_top_snap t =? 0)%Z; [discriminate|].
    congruence.
Qed.

(** X13. For per-example losses (one per batch entry), a positive snap and
    a positive [loss_top_p], [compute] returns a top loss that is at least
    the full-batch loss, which is the mean of the losses; the two are the
    same number once [loss_top_p] is one or more. *)
Theorem top_loss_at_least_loss (t : Training) (batch : Z) (losses : list Q) :
  Z.of_nat (length losses) = batch ->
  (1 <= batch)%Z ->
  (1 <= loss_top_snap t)%Z ->
  (0 < loss_top_p t)%Q ->
  exists top loss,
    compute t batch losses = Returned (top, loss) /\
    (loss == Qsum losses / inject_Z batch)%Q /\
    (loss <= top)%Q /\
    ((1 <= loss_top_p t)%Q -> top = loss).
Proof.
  intros Hlen Hbatch Hsnap Hp.
  destruct (compute_orders_losses t batch losses Hlen Hbatch Hsnap Hp)
    as [top [loss [E [Hle Heq]]]].
  exists top, loss. split; [exact E|]. split; [|split; assumption].
  unfold compute in E.
  destruct (loss_top_snap t =? 0)%Z; [discriminate|].
  destruct (Qlt_bool (loss_top_p t) 1 && (top_k_of batch t <? batch)%Z).
  - destruct (lax_top_k losses (top_k_of batch t)); [|discriminate].
    injection E as _ <-. reflexivity.
  - injection E as _ <-. reflexivity.
Qed.


(** ** The monitor's verdicts and its edge configurations *)

Lemma slice_keeps_latest {A : Type} (k : Z) (l : list A) (x : A) :
  (k <= 0)%Z -> exists pre, py_slice_from k (l ++ [x]) = pre ++ [x].
Proof.
  intros Hk. unfold py_slice_from. destruct (Z.ltb_spec k 0) as [Hneg|Hpos].
  - set (n := Z.to_nat (Z.max 0 (Z.of_nat (length (l ++ [x])) + k))).
    assert (Hn : (n <= length l)%nat).
    { unfold n. rewrite length_app. cbn [length]. lia. }
    exists (skipn n l). rewrite skipn_app.
    replace (n - length l)%nat with 0%nat by lia. reflexivity.
  - replace k with 0%Z by lia. exists l. reflexivity.
Qed.

Lemma head_snoc_some {A : Type} (pre : list A) (x : A) :
  exists y, head (pre ++ [x]) = Some y /\ In y (pre ++ [x]).
Proof.
  destruct pre as [|y pre]; [exists x | exists y]; split;
    solve [reflexivity | left; reflexivity].
Qed.

Lemma middle_flat (x : Q) (s : list Q) :
  s <> [] -> Forall (fun y => (y == x)%Q) s -> (middle s == x)%Q.
Proof.
  intros Hne Hall.
  assert (Hnth : forall i, (i < length s)%nat -> (nth i s 0 == x)%Q).
  { intros i Hi. exact (proj1 (List.Forall_nth _ s) Hall i 0%Q Hi). }
  assert (Hlen : (0 < length s)%nat).
  { destruct s; [congruence | simpl; lia]. }
  pose proof (Nat.div_lt (length s) 2 Hlen ltac:(lia)) as Hhalf.
  unfold middle. destruct (Nat.even (length s)) eqn:Ev.
  - rewrite (Hnth (length s / 2 - 1)%nat) by lia.
    rewrite (Hnth (length s / 2)%nat) by lia. field.
  - apply Hnth. lia.
Qed.

Lemma median_flat (x : Q) (l : list Q) :
  l <> [] -> Forall (fun y => (y == x)%Q) l -> (median l == x)%Q.
Proof.
  intros Hne Hall. unfold median. apply middle_flat.
  - intros E. apply Hne. apply Permutation_nil.
    rewrite <- E. apply sort_asc_perm.
  - eapply Permutation_Forall; [|exact Hall].
    apply Permutation_sym, sort_asc_perm.
Qed.

Lemma keep_last_Forall {A : Type} (P : A -> Prop) (n : nat) (l : list A) :
  Forall P l -> Forall P (keep_last n l).
Proof.
  intros H. destruct (keep_last_suffix n l) as [pre Hpre].
  rewrite Hpre in H. apply Forall_app in H as [_ H]. exact H.
Qed.

Section Verdicts.

Variable t : Training.
Variable w : WandB.
Variable m : Z.
Hypothesis steps_nonzero : device_steps t <> 0%Z.
Hypothesis largest_window :
  py_max (map (fun s => (s / device_steps t)%Z) (median_sizes w)) = Some m.
Hypothesis window_pos : (1 <= m)%Z.

Let M : nat := Z.to_nat m.
Let scaled (x : Q) : Q := (x / inject_Z (device_steps t))%Q.
Let es : EarlyStopping := early_stopping t.

(** The three ways a call ends, with the tests that decided it. *)
Lemma call_outcome (self : WandbLog) (loss top_loss : Q) :
  let L' := keep_last M (losses self ++ [scaled loss]) in
  let Md' := keep_last M (loss_medians self ++ [median L']) in
  let spike_window :=
    py_slice_from ((- maximum_spike_duration es) / device_steps t) L' in
  let above l := Qlt_bool (median L' * maximum_spike_size es) l in
  exists oldest,
    head Md' = Some oldest /\ In oldest Md' /\ last Md' = Some (median L') /\
    let stalled :=
      Qlt_bool oldest (median L' * (1 - minimum_relative_loss_change es)) in
    ((stalled = true /\
      snd (WandbLog_call t w self loss top_loss) = Returned NotImproving) \/
     (stalled = false /\ forallb above spike_window = true /\
      snd (WandbLog_call t w self loss top_loss) = Returned Spiking) \/
     (stalled = false /\ forallb above spike_window = false /\
      exists logged,
        snd (WandbLog_call t w self loss top_loss) = Returned (Continue logged))).
Proof.
  intros L' Md' spike_window above.
  assert (HM : (1 <= M)%nat) by (unfold M; lia).
  destruct (keep_last_nonempty M (loss_medians self) (median L') HM) as [pre Hpre].
  fold Md' in Hpre.
  destruct (head_snoc_some pre (median L')) as [oldest [Hh Hin]].
  rewrite <- Hpre in Hh, Hin.
  assert (Hl : last Md' = Some (median L')) by (rewrite Hpre; apply last_snoc).
  exists oldest. split; [exact Hh|]. split; [exact Hin|]. split; [exact Hl|].
  intros stalled.
  unfold WandbLog_call.
  destruct (Z.eqb_spec (device_steps t) 0) as [E|_]; [contradiction|].
  rewrite largest_window. rewrite !py_slice_keep_last by exact window_pos.
  fold M. fold (scaled loss). fold (scaled top_loss). fold L'. fold Md'. fold es.
  rewrite Hh, Hl. fold stalled. fold spike_window.
  destruct stalled; [left; split; reflexivity|]. right.
  change (forallb (fun l => Qlt_bool (median L' * maximum_spike_size es) l) spike_window)
    with (forallb above spike_window).
  destruct (forallb above spike_window); [left; repeat split; reflexivity|]. right.
  split; [reflexivity|]. split; [reflexivity|].
  destruct (negb (run self)); eexists; reflexivity.
Qed.

(** X14. With a non-zero [device_steps] and a largest window of at least
    one call, a call on any monitor object returns a verdict (it raises
    nothing) and counts the call. *)
Theorem monitor_call_returns (self : WandbLog) (loss top_loss : Q) :
  (exists v, snd (WandbLog_call t w self loss top_loss) = Returned v) /\
  idx (fst (WandbLog_call t w self loss top_loss)) = (idx self + 1)%Z.
Proof.
  split.
  - destruct (call_outcome self loss top_loss) as [oldest [_ [_ [_ Hcases]]]].
    cbn zeta in Hcases.
    destruct Hcases as [[_ H]|[[_ [_ H]]|[_ [_ [logged H]]]]];
      eexists; exact H.
  - rewrite (call_state t w m steps_nonzero largest_window window_pos).
    reflexivity.
Qed.

(** X15. With at least one device step per call and a non-negative spike
    duration, a call that reports a spike received a reading that, divided
    by the device steps, lies strictly above the spike size times the
    median of the loss window the call leaves behind. *)
Theorem spiking_means_latest_above (self : WandbLog) (loss top_loss : Q) :
  (1 <= device_steps t)%Z ->
  (0 <= maximum_spike_duration (early_stopping t))%Z ->
  snd (WandbLog_call t w self loss top_loss) = Returned Spiking ->
  let self' := fst (WandbLog_call t w self loss top_loss) in
  (median (losses self') * maximum_spike_size (early_stopping t)
   < loss / inject_Z (device_steps t))%Q.
Proof.
  intros Hds Hdur Hspike self'.
  assert (HM : (1 <= M)%nat) by (unfold M; lia).
  unfold self'. rewrite (call_state t w m steps_nonzero largest_window window_pos).
  cbn [losses]. fold M. fold (scaled loss).
  destruct (call_outcome self loss top_loss) as [oldest [_ [_ [_ Hcases]]]].
  cbn zeta in Hcases. rewrite Hspike in Hcases.
  destruct Hcases as [[_ H]|[[_ [Hall _]]|[_ [_ [logged H]]]]]; try discriminate.
  destruct (keep_last_nonempty M (losses self) (scaled loss) HM) as [pre Hpre].
  assert (Hk : ((- maximum_spike_duration es) / device_steps t <= 0)%Z).
  { apply Z.div_le_upper_bound; unfold es; lia. }
  destruct (slice_keeps_latest _ pre (scaled loss) Hk) as [pre' Hpre'].
  rewrite <- Hpre in Hpre'. rewrite Hpre' in Hall. rewrite forallb_app in Hall.
  apply andb_true_iff in Hall as [_ Hall]. cbn [forallb] in Hall.
  apply andb_true_iff in Hall as [Hall _].
  unfold Qlt_bool in Hall. apply negb_true_iff in Hall.
  apply Qnot_le_lt. intros Hle. apply Qle_bool_iff in Hle.
  fold es in Hle. congruence.
Qed.

End Verdicts.

Section FlatRun.

Variable t : Training.
Variable w : WandB.
Variable m : Z.
Hypothesis steps_pos : (1 <= device_steps t)%Z.
Hypothesis largest_window :
  py_max (map (fun s => (s / device_steps t)%Z) (median_sizes w)) = Some m.
Hypothesis window_pos : (1 <= m)%Z.
Hypothesis change_nonneg :
  (0 <= minimum_relative_loss_change (early_stopping t))%Q.
Hypothesis spike_size_ge_one : (1 <= maximum_spike_size (early_stopping t))%Q.
Hypothesis spike_duration_nonneg : (0 <= maximum_spike_duration (early_stopping t))%Z.

Variable level : Q.
Hypothesis level_nonneg : (0 <= level)%Q.

Let M : nat := Z.to_nat m.
Let scaled (x : Q) : Q := (x / inject_Z (device_steps t))%Q.

(** One more reading at the level of a flat window: the call goes on and
    the windows stay flat. *)
Lemma call_flat (self : WandbLog) (loss top_loss : Q) :
  Forall (fun y => (y == scaled level)%Q) (losses self) ->
  Forall (fun y => (y == scaled level)%Q) (loss_medians self) ->
  (loss == level)%Q ->
  Forall (fun y => (y == scaled level)%Q)
         (losses (fst (WandbLog_call t w self loss top_loss))) /\
  Forall (fun y => (y == scaled level)%Q)
         (loss_medians (fst (WandbLog_call t w self loss top_loss))) /\
  exists logged,
    snd (WandbLog_call t w self loss top_loss) = Returned (Continue logged).
Proof.
  intros Hl Hm Hloss.
  assert (Hnz : device_steps t <> 0%Z) by lia.
  assert (HM : (1 <= M)%nat) by (unfold M; lia).
  assert (Hlevel : (0 <= scaled level)%Q).
  { unfold scaled. apply Qle_shift_div_l; [|lra].
    change 0%Q with (inject_Z 0). rewrite <- Zlt_Qlt. lia. }
  assert (Hx : (scaled loss == scaled level)%Q).
  { unfold scaled. rewrite Hloss. reflexivity. }
  rewrite (call_state t w m Hnz largest_window window_pos).
  cbn [losses loss_medians]. fold M. fold (scaled loss).
  destruct (call_outcome t w m Hnz largest_window window_pos self loss top_loss)
    as [oldest [_ [Hin [_ Hcases]]]].
  cbn zeta in Hcases. fold M in Hin, Hcases. fold (scaled loss) in Hin, Hcases.
  set (L' := keep_last M (losses self ++ [scaled loss])) in *.
  set (Md' := keep_last M (loss_medians self ++ [median L'])) in *.
  assert (HL' : Forall (fun y => (y == scaled level)%Q) L').
  { apply keep_last_Forall. apply Forall_app. split; [exact Hl|].
    repeat constructor. exact Hx. }
  assert (HL'ne : L' <> []).
  { destruct (keep_last_nonempty M (losses self) (scaled loss) HM) as [pre Hpre].
    fold L' in Hpre. rewrite Hpre. destruct pre; discriminate. }
  pose proof (median_flat (scaled level) L' HL'ne HL') as Hmed.
  assert (HMd' : Forall (fun y => (y == scaled level)%Q) Md').
  { apply keep_last_Forall. apply Forall_app. split; [exact Hm|].
    repeat constructor. exact Hmed. }
  split; [exact HL'|]. split; [exact HMd'|].
  assert (Hold : (oldest == scaled level)%Q).
  { rewrite List.Forall_forall in HMd'. apply HMd'. exact Hin. }
  assert (Hstall : Qlt_bool oldest
                     (median L' * (1 - minimum_relative_loss_change (early_stopping t)))
                   = false).
  { unfold Qlt_bool. apply negb_false_iff. apply Qle_bool_iff.
    rewrite Hmed, Hold. nra. }
  assert (Hspike :
    forallb (fun l => Qlt_bool (median L' * maximum_spike_size (early_stopping t)) l)
      (py_slice_from ((- maximum_spike_duration (early_stopping t)) / device_steps t) L')
    = false).
  { destruct (keep_last_nonempty M (losses self) (scaled loss) HM) as [pre Hpre].
    fold L' in Hpre.
    assert (Hk : ((- maximum_spike_duration (early_stopping t)) / device_steps t <= 0)%Z).
    { apply Z.div_le_upper_bound; lia. }
    destruct (slice_keeps_latest _ pre (scaled loss) Hk) as [pre' Hpre'].
    rewrite <- Hpre in Hpre'. rewrite Hpre'. rewrite forallb_app.
    apply andb_false_iff. right. cbn [forallb]. apply andb_false_iff. left.
    unfold Qlt_bool. apply negb_false_iff. apply Qle_bool_iff.
    rewrite Hmed, Hx. nra. }
  rewrite Hstall, Hspike in Hcases.
  destruct Hcases as [[H _]|[[_ [H _]]|[_ [_ H]]]]; try discriminate.
  exact H.
Qed.

Lemma feed_flat (readings : list (Q * Q)) : forall self : WandbLog,
  Forall (fun y => (y == scaled level)%Q) (losses self) ->
  Forall (fun y => (y == scaled level)%Q) (loss_medians self) ->
  Forall (fun reading => (fst reading == level)%Q) readings ->
  Forall (fun o => exists logged, o = Returned (Continue logged))
         (snd (feed t w self readings)).
Proof.
  induction readings as [|[loss top_loss] rest IH]; intros self Hl Hm Hall;
    [constructor|].
  cbn [feed]. inversion Hall as [|? ? Hloss Hrest]; subst. cbn [fst] in Hloss.
  destruct (call_flat self loss top_loss Hl Hm Hloss) as [Hl' [Hm' Hout]].
  destruct (WandbLog_call t w self loss top_loss) as [self1 out].
  cbn [fst snd] in *.
  specialize (IH self1 Hl' Hm' Hrest).
  destruct (feed t w self1 rest) as [self2 outs]. cbn [snd] in *.
  constructor; assumption.
Qed.

(** X16. With at least one device step per call, a largest window of at
    least one call, a non-negative relative change, a spike size of at
    least one and a non-negative spike duration: a fresh monitor fed any
    number of readings whose loss stays at one non-negative level never
    asks to stop, neither as "not improving" nor as "spiking". *)
Theorem flat_losses_never_stop (r : bool) (readings : list (Q * Q)) :
  Forall (fun reading => (fst reading == level)%Q) readings ->
  Forall (fun o => exists logged, o = Returned (Continue logged))
         (snd (feed t w (WandbLog_init r) readings)).
Proof.
  intros Hall. apply feed_flat; [constructor | constructor | exact Hall].
Qed.

End FlatRun.

Section EdgeConfigurations.

Variable t : Training.
Variable w : WandB.

Let scaled (x : Q) : Q := (x / inject_Z (device_steps t))%Q.

Lemma py_max_all_below_steps :
  median_sizes w <> [] ->
  Forall (fun s => (0 <= s < device_steps t)%Z) (median_sizes w) ->
  py_max (map (fun s => (s / device_steps t)%Z) (median_sizes w)) = Some 0%Z.
Proof.
  intros Hne Hall.
  destruct (py_max (map (fun s => (s / device_steps t)%Z) (median_sizes w)))
    as [mx|] eqn:E.
  - destruct (py_max_spec _ _ E) as [Hin _].
    apply in_map_iff in Hin as [s [Hs Hsin]].
    rewrite List.Forall_forall in Hall. specialize (Hall s Hsin).
    rewrite Z.div_small in Hs by exact Hall. congruence.
  - destruct (median_sizes w); [congruence | discriminate].
Qed.

Lemma call_zero_window (self : WandbLog) (loss top_loss : Q) :
  median_sizes w <> [] ->
  Forall (fun s => (0 <= s < device_steps t)%Z) (median_sizes w) ->
  fst (WandbLog_call t w self loss top_loss) =
    mkWandbLog (run self)
      (losses self ++ [scaled loss])
      (accuracies self ++ [scaled top_loss])
      (idx self + 1)
      (loss_medians self ++ [median (losses self ++ [scaled loss])]) /\
  exists v, snd (WandbLog_call t w self loss top_loss) = Returned v.
Proof.
  intros Hne Hall.
  assert (Hnz : device_steps t <> 0%Z).
  { destruct (median_sizes w) as [|s rest]; [congruence|].
    inversion Hall; subst. lia. }
  unfold WandbLog_call.
  destruct (Z.eqb_spec (device_steps t) 0) as [E|_]; [contradiction|].
  rewrite (py_max_all_below_steps Hne Hall).
  change (py_slice_from (- 0)) with (fun l : list Q => l). cbn beta.
  fold (scaled loss). fold (scaled top_loss).
  destruct (head_snoc_some (loss_medians self) (median (losses self ++ [scaled loss])))
    as [oldest [Hh _]].
  rewrite Hh, last_snoc.
  repeat match goal with
  | |- context [if ?x then _ else _] => destruct x
  end; split; solve [reflexivity | eexists; reflexivity].
Qed.

(** X17. When every configured median size is non-negative and smaller
    than [device_steps], the largest window is zero calls long and the
    slices [l[-0:]] keep everything: every call returns a verdict and no
    reading is ever dropped, so the three windows grow by one entry per
    call. *)
Theorem zero_window_never_trims (readings : list (Q * Q)) : forall self : WandbLog,
  median_sizes w <> [] ->
  Forall (fun s => (0 <= s < device_steps t)%Z) (median_sizes w) ->
  let self' := fst (feed t w self readings) in
  losses self' =
    losses self ++ map (fun x => (fst x / inject_Z (device_steps t))%Q) readings /\
  accuracies self' =
    accuracies self ++ map (fun x => (snd x / inject_Z (device_steps t))%Q) readings /\
  length (loss_medians self') = (length (loss_medians self) + length readings)%nat /\
  Forall (fun o => exists v, o = Returned v) (snd (feed t w self readings)).
Proof.
  induction readings as [|[loss top_loss] rest IH]; intros self Hne Hall.
  - cbn. rewrite !app_nil_r. repeat split; try lia. constructor.
  - cbn [feed].
    destruct (call_zero_window self loss top_loss Hne Hall) as [Hstate Hout].
    destruct (WandbLog_call t w self loss top_loss) as [self1 out].
    cbn [fst snd] in Hstate, Hout.
    specialize (IH self1 Hne Hall). cbn zeta in IH.
    destruct (feed t w self1 rest) as [self2 outs].
    cbn [fst snd] in *. destruct IH as [IHl [IHa [IHm IHo]]].
    rewrite Hstate in IHl, IHa, IHm. cbn [losses accuracies loss_medians] in *.
    rewrite <- app_assoc in IHl, IHa. rewrite length_app in IHm.
    cbn [length] in *.
    split; [exact IHl|]. split; [exact IHa|]. split; [lia|].
    constructor; assumption.
Qed.

(** X18. With no median sizes configured (and a non-zero [device_steps])
    every call raises [ValueError], at [max(sizes)]; by then the reading
    has been appended to the loss and accuracy windows and the call has
    been counted, so those windows grow untrimmed while the window of
    medians stays as it was. *)
Theorem no_median_sizes_raises (readings : list (Q * Q)) : forall self : WandbLog,
  device_steps t <> 0%Z ->
  median_sizes w = [] ->
  let self' := fst (feed t w self readings) in
  snd (feed t w self readings) = map (fun _ => Raised ValueError) readings /\
  losses self' =
    losses self ++ map (fun x => (fst x / inject_Z (device_steps t))%Q) readings /\
  accuracies self' =
    accuracies self ++ map (fun x => (snd x / inject_Z (device_steps t))%Q) readings /\
  loss_medians self' = loss_medians self /\
  idx self' = (idx self + Z.of_nat (length readings))%Z.
Proof.
  induction readings as [|[loss top_loss] rest IH]; intros self Hnz Hempty.
  - cbn. rewrite !app_nil_r. repeat split. lia.
  - cbn [feed].
    assert (Hcall : WandbLog_call t w self loss top_loss =
              (mkWandbLog (run self) (losses self ++ [scaled loss])
                 (accuracies self ++ [scaled top_loss]) (idx self + 1)
                 (loss_medians self),
               Raised ValueError)).
    { unfold WandbLog_call.
      destruct (Z.eqb_spec (device_steps t) 0) as [E|_]; [contradiction|].
      rewrite Hempty. reflexivity. }
    rewrite Hcall.
    specialize (IH (mkWandbLog (run self) (losses self ++ [scaled loss])
                      (accuracies self ++ [scaled top_loss]) (idx self + 1)
                      (loss_medians self)) Hnz Hempty).
    cbn zeta in IH. destruct (feed t w _ rest) as [self2 outs].
    cbn [fst snd losses accuracies loss_medians idx] in *.
    destruct IH as [IHo [IHl [IHa [IHm IHi]]]].
    rewrite <- app_assoc in IHl, IHa.
    cbn [map length]. split; [congruence|]. split; [exact IHl|].
    split; [exact IHa|]. split; [exact IHm|]. lia.
Qed.

End EdgeConfigurations.

(** ** Embedding a sequence of tokens *)

Lemma one_hot_rows (inp : list Z) (size : Z) :
  map (map bool_to_Q) (one_hot inp size) =
  map (fun t => map (fun j => bool_to_Q (Z.eqb t (Z.of_nat j))) (seq 0 (Z.to_nat size)))
      inp.
Proof.
  unfold one_hot, arange. rewrite map_map. apply map_ext. intros t.
  rewrite !map_map. reflexivity.
Qed.

Lemma one_hot_rows_width (inp : list Z) (size : Z) (n : nat) :
  n = Z.to_nat size ->
  forallb (fun l : list Q => (length l =? n)%nat)
          (map (map bool_to_Q) (one_hot inp size)) = true.
Proof.
  intros ->. rewrite one_hot_rows. apply forallb_forall. intros l Hl.
  apply in_map_iff in Hl as [t [<- _]].
  rewrite length_map, length_seq. apply Nat.eqb_refl.
Qed.


(** X20. When the number of rows of the embedding table differs from the
    vocabulary size the one-hot rows are built with, embedding a non-empty
    sequence raises the shape error of the contraction; while
    initialising, the input comes back as it is whatever the table. *)
Theorem input_embed_table_mismatch (size : Z) (width : nat)
    (inp_embd : list (list Q)) (inp : list Z) :
  length inp_embd <> Z.to_nat size ->
  inp <> [] ->
  input_embed false size width inp_embd inp = Raised TypeError /\
  input_embed true size width inp_embd inp = Returned (Tokens inp).
Proof.
  intros Hrows Hne. split; [|reflexivity].
  unfold input_embed, matmul. rewrite one_hot_rows.
  destruct inp as [|t inp]; [congruence|].
  cbn [map forallb]. rewrite length_map, length_seq.
  destruct (Nat.eqb_spec (Z.to_nat size) (length inp_embd)) as [E|_]; [congruence|].
  reflexivity.
Qed.

(** ** Reduce-scatter followed by its backward rule *)

Lemma firstn_exact {A : Type} (n : nat) (l : list A) :
  length l = n -> firstn n l = l.
Proof. intros <-. apply firstn_all. Qed.

(** X21. Applying the backward rule of [psum_scatter] to its own forward
    value gives every worker the whole element-wise sum over the group,
    under the shape of the input: reduce-scatter followed by all-gather is
    an all-reduce. *)
Theorem psum_scatter_then_gather_is_all_reduce (inp : pvalue) (rest : list nat) :
  pv_wf inp ->
  pv_shape inp = group_size inp :: rest ->
  exists y grad g,
    psum_scatter inp = Returned (y, grad) /\
    grad y = Returned g /\
    pv_shape g = pv_shape inp /\
    pv_data g =
      map (fun _ => group_sum (shape_size (pv_shape inp)) (pv_data inp)) (pv_data inp).
Proof.
  intros Hwf Hshape.
  assert (Hlen : length (group_sum (shape_size (pv_shape inp)) (pv_data inp))
                 = (group_size inp * shape_size rest)%nat).
  { rewrite group_sum_length by exact Hwf. rewrite Hshape. reflexivity. }
  unfold psum_scatter, lax_psum_scatter. rewrite Hshape, Nat.eqb_refl.
  rewrite <- Hshape.
  eexists. eexists. eexists. split; [reflexivity|]. cbn beta.
  rewrite all_gather_reshape.
  - split; [reflexivity|]. split; [reflexivity|]. cbn [pv_data].
    rewrite concat_chunks, (firstn_exact _ _ Hlen).
    rewrite map_map. unfold group_size.
    generalize (group_sum (shape_size (pv_shape inp)) (pv_data inp)). intros total.
    generalize (pv_data inp). intros bufs. clear.
    assert (H : forall a, map (fun _ : nat => total) (seq a (length bufs))
                          = map (fun _ : list Q => total) bufs).
    { induction bufs as [|b bufs IH]; intros a; [reflexivity|].
      cbn [length seq map]. rewrite IH. reflexivity. }
    apply H.
  - unfold group_size at 1. cbn [pv_shape pv_data]. rewrite length_map, length_seq.
    rewrite Hshape at 1. reflexivity.
Qed.

(** ** What the training step accumulates *)

Section TrainFacts.

Variables params grads datum data step : Type.
Variable unreduced_loss : params -> datum -> list Q.
Variable grad_of : params -> datum -> grads.
Variable update : params -> grads -> step -> params.
Variable data_at : data -> step -> Z -> datum.
Variable next_step : step -> step.
Variable compute_training : Training.
Variable batch : Z.
Variable wctx_device_steps : Z.
Variable with_data :
  WhileTrainContext params data step -> data -> WhileTrainContext params data step.

Hypothesis one_loss_per_example :
  forall p d, Z.of_nat (length (unreduced_loss p d)) = batch.
Hypothesis batch_pos : (1 <= batch)%Z.
Hypothesis snap_pos : (1 <= loss_top_snap compute_training)%Z.
Hypothesis top_p_pos : (0 < loss_top_p compute_training)%Q.

Let step_of := train_step unreduced_loss grad_of update data_at next_step
                 compute_training batch wctx_device_steps.

(** One step adds a top loss to [loss] and a full-batch loss, which is no
    larger, to [top_loss]. *)
Lemma train_step_adds (wctx : WhileTrainContext params data step) :
  exists top full,
    (full <= top)%Q /\
    ((1 <= loss_top_p compute_training)%Q -> top = full) /\
    step_of wctx =
      Returned (mkWhileTrainContext
                  (update (wctx_parameters wctx)
                     (grad_of (wctx_parameters wctx)
                        (data_at (wctx_data wctx) (wctx_current_step wctx)
                                 wctx_device_steps))
                     (wctx_current_step wctx))
                  (wctx_data wctx)
                  (wctx_loss wctx + top)%Q
                  (wctx_top_loss wctx + full)%Q
                  (next_step (wctx_current_step wctx))).
Proof.
  unfold step_of, train_step.
  set (d := data_at (wctx_data wctx) (wctx_current_step wctx) wctx_device_steps).
  destruct (compute_orders_losses compute_training batch
              (unreduced_loss (wctx_parameters wctx) d)
              (one_loss_per_example _ _) batch_pos snap_pos top_p_pos)
    as [top [full [E [Hle Heq]]]].
  exists top, full. split; [exact Hle|]. split; [exact Heq|].
  rewrite E. reflexivity.
Qed.

Lemma steps_keep_order (n : nat) : forall wctx : WhileTrainContext params data step,
  exists w',
    loop_result step_of n wctx = Returned w' /\
    wctx_data w' = wctx_data wctx /\
    (wctx_top_loss w' - wctx_top_loss wctx <= wctx_loss w' - wctx_loss wctx)%Q /\
    ((1 <= loss_top_p compute_training)%Q ->
     (wctx_top_loss w' - wctx_top_loss wctx == wctx_loss w' - wctx_loss wctx)%Q).
Proof.
  induction n as [|n IH]; intros wctx.
  - exists wctx. split; [reflexivity|]. split; [reflexivity|].
    split; [lra|]. intros _. lra.
  - destruct (train_step_adds wctx) as [top [full [Hle [Heq E]]]].
    cbn [loop_result]. rewrite E. cbn [and_then].
    destruct (IH (mkWhileTrainContext
                  (update (wctx_parameters wctx)
                     (grad_of (wctx_parameters wctx)
                        (data_at (wctx_data wctx) (wctx_current_step wctx)
                                 wctx_device_steps))
                     (wctx_current_step wctx))
                  (wctx_data wctx)
                  (wctx_loss wctx + top)%Q
                  (wctx_top_loss wctx + full)%Q
                  (next_step (wctx_current_step wctx))))
      as [w' [E' [Hd [Hord Hsame]]]].
    cbn [wctx_data wctx_loss wctx_top_loss] in Hd, Hord, Hsame.
    exists w'. split; [exact E'|]. split; [exact Hd|]. split; [lra|].
    intros H1. specialize (Hsame H1). specialize (Heq H1). subst top. lra.
Qed.


End TrainFacts.

(** ** The further properties on the sample inputs *)

Lemma pos_dim_normalises_witness :
  (0 < 3)%Z /\
  exists out,
    pos_dim 3 [-1; 1; -3]%Z = Returned out /\ pos_dim 3 out = Returned out.
Proof.
  split; [lia|].
  destruct (proj1 (pos_dim_normalises 3 [-1; 1; -3]%Z) ltac:(lia))
    as [out [E [_ Hagain]]].
  exists out. split; assumption.
Defined.

Lemma matmul_contracts_trailing_with_leading_witness :
  (1 <= 1 <= 2)%Z /\ (1 <= 3)%Z /\
  matmul_dimension_numbers 2 3 1 =
  Returned (py_range (2 - 1) 2, py_range 0 1, ([], [])).
Proof.
  split; [lia|]. split; [lia|].
  apply (proj1 (matmul_contracts_trailing_with_leading 2 3 1)); lia.
Defined.

Lemma conv_layout_is_permutation_witness :
  (2 <= 4)%Z /\
  Permutation (lhs_spec (conv_dimension_numbers 4)) (py_range 0 4).
Proof.
  split; [lia|].
  destruct (conv_layout_is_permutation 4 ltac:(lia)) as [H _]. exact H.
Defined.

Lemma orthogonal_init_keeps_shape_witness :
  Forall (fun d => (1 <= d)%nat) ([2; 3] ++ [4])%nat /\
  exists p,
    orthogonal_init_shapes [2; 3; 4]%nat (column_range [2; 3; 4]%nat 1) = Returned p /\
    target_shape p = [2; 3; 4]%nat /\
    matrix_shape p = (6, 4)%nat.
Proof.
  assert (H : Forall (fun d => (1 <= d)%nat) ([2; 3] ++ [4])%nat).
  { repeat constructor. }
  split; [exact H|].
  destruct (orthogonal_init_keeps_shape [2; 3]%nat [4]%nat H)
    as [p [E [Ht [Hm _]]]].
  exists p. split; [exact E|]. split; [exact Ht | exact Hm].
Defined.

Lemma sample_prefix_only (c c' : Context ndarray) (name : string) :
  name_prefix c = name_prefix c' ->
  SampleStore.prefixed_name c name = SampleStore.prefixed_name c' name.
Proof. intros H. unfold SampleStore.prefixed_name. rewrite H. reflexivity. Defined.

Lemma sample_orthogonal_threads_key (c : Context ndarray) (shape : list nat) (k : nat) :
  exists key, snd (SampleStore.orthogonal_init c shape k) = set_prng_key c key.
Proof. exists (prng_key c). symmetry. apply set_prng_key_same. Defined.

Lemma get_param_created_once_witness :
  parameters SampleStore.ctx !! SampleStore.prefixed_name SampleStore.ctx "bias" = None /\
  exists v ctx',
    get_param SampleStore.cast SampleStore.prefixed_name SampleStore.random_split
              SampleStore.random_normal SampleStore.orthogonal_init
              SampleStore.ctx "bias" (Some [2%nat]) (Some 1%Q) None 1 1%Q 1%Q 1%Q None None
      = Returned (v, ctx') /\
    get_param SampleStore.cast SampleStore.prefixed_name SampleStore.random_split
              SampleStore.random_normal SampleStore.orthogonal_init
              ctx' "bias" (Some [5%nat]) None None 1 1%Q 1%Q 1%Q None None
      = Returned (v, ctx').
Proof.
  split; [reflexivity|].
  assert (E : exists v ctx',
    get_param SampleStore.cast SampleStore.prefixed_name SampleStore.random_split
              SampleStore.random_normal SampleStore.orthogonal_init
              SampleStore.ctx "bias" (Some [2%nat]) (Some 1%Q) None 1 1%Q 1%Q 1%Q None None
      = Returned (v, ctx')).
  { eexists. eexists. reflexivity. }
  destruct E as [v [ctx' E]]. exists v, ctx'. split; [exact E|].
  destruct (get_param_created_once SampleStore.cast SampleStore.prefixed_name
              SampleStore.random_split SampleStore.random_normal
              SampleStore.orthogonal_init sample_prefix_only
              sample_orthogonal_threads_key SampleStore.ctx "bias"
              (Some [2%nat]) (Some 1%Q) None 1%nat 1%Q 1%Q 1%Q None None v ctx'
              eq_refl E) as [_ [_ [_ Hagain]]].
  apply Hagain.
Defined.

Lemma zero_param_is_zero_but_draws_witness :
  parameters SampleStore.ctx !! SampleStore.prefixed_name SampleStore.ctx "bias" = None /\
  exists v ctx',
    zero_param SampleStore.cast SampleStore.prefixed_name SampleStore.random_split
               SampleStore.random_normal SampleStore.orthogonal_init
               SampleStore.ctx "bias" [2%nat] None = Returned (v, ctx') /\
    all_zero (nd_data v) /\
    prng_key ctx' = fst (SampleStore.random_split (prng_key SampleStore.ctx)).
Proof.
  split; [reflexivity|].
  destruct (zero_param_is_zero_but_draws SampleStore.cast SampleStore.prefixed_name
              SampleStore.random_split SampleStore.random_normal
              SampleStore.orthogonal_init sample_prefix_only
              (fun d q H => H) SampleStore.ctx "bias" [2%nat] None eq_refl)
    as [v [ctx' [stored [E [_ [_ [Hz [_ [_ [Hkey _]]]]]]]]]].
  exists v, ctx'. split; [exact E|]. split; [exact Hz | exact Hkey].
Defined.

Lemma loop_counts_two_per_block_witness :
  Int32.in_range 5 /\
  snd (fst (loop Sample.add_to_prefix Sample.double Sample.double 3 Sample.ctx
                 (SampleRails.state, 5%Z)))
  = Int32.wrap (5 + 2 * Z.of_nat 3).
Proof.
  assert (H : Int32.in_range 5).
  { unfold Int32.in_range, Int32.min_signed, Int32.max_signed. lia. }
  split; [exact H|].
  apply (proj1 (loop_counts_two_per_block unit Sample.add_to_prefix Sample.double
                  Sample.double 3 Sample.ctx SampleRails.state 5%Z H)).
Defined.

Lemma sample_double_respects : respects_tensor_eq Sample.double_rev.
Proof.
  intros c x y d H i. unfold Sample.double_rev, tmulc. cbn [fst].
  rewrite (H i). reflexivity.
Defined.

Lemma momentum_layer_round_trip_witness :
  is_initializing Sample.ctx = false /\
  respects_tensor_eq Sample.double_rev /\
  (let step1 :=
     reversible Sample.add_to_prefix Sample.ctx Sample.double_rev
                (∅, Sample.const 7, Sample.const 0, Sample.const 3, Sample.const 0) in
   let step2 :=
     reversible Sample.add_to_prefix (snd step1) Sample.double_rev (fst step1) in
   let '(dy_a, y0, dy_b, y1) := revnet_out_grad (rails (fst step2)) (Sample.const 1) in
   let '(d_params2, g0, v0, g1, v1) :=
     reversible_grad Sample.add_to_prefix Sample.pullback (snd step2)
                     (name_cache (snd step1)) Sample.double_rev ∅
                     (∅, dy_a, y0, dy_b, y1) in
   let '(_, _, r0, _, r1) :=
     reversible_grad Sample.add_to_prefix Sample.pullback (snd step2)
                     (name_cache Sample.ctx) Sample.double_rev ∅
                     (d_params2, g0, v0, g1, v1) in
   tensor_eq r0 (Sample.const 7) /\ tensor_eq r1 (Sample.const 3)).
Proof.
  split; [reflexivity|]. split; [exact sample_double_respects|].
  exact (momentum_layer_round_trip unit Sample.add_to_prefix Sample.pullback
           Sample.ctx Sample.double_rev Sample.double_rev ∅
           (Sample.const 7) (Sample.const 0) (Sample.const 3) (Sample.const 0)
           ∅ (Sample.const 1) eq_refl sample_double_respects).
Defined.


Lemma normalize_is_centred_witness :
  Forall (fun row : list Q => row <> []) SampleNorm.src /\
  Forall2 (Forall2 Qeq)
    (normalize_fn (map (map (fun x => (x + 5)%Q)) SampleNorm.src) 2)
    (normalize_fn SampleNorm.src 2).
Proof.
  assert (H : Forall (fun row : list Q => row <> []) SampleNorm.src).
  { repeat constructor; discriminate. }
  split; [exact H|].
  apply (proj2 (normalize_is_centred SampleNorm.src 2 5) H).
Defined.

Lemma normalize_grad_is_centred_witness :
  Forall2 (fun row g : list Q => length row = length g) SampleNorm.src SampleNorm.dy /\
  Forall (fun row => (Qsum row == 0)%Q)
         (fst (normalize_grad SampleNorm.norm_scale SampleNorm.src 2 SampleNorm.dy)).
Proof.
  assert (H : Forall2 (fun row g : list Q => length row = length g)
                SampleNorm.src SampleNorm.dy).
  { repeat constructor. }
  split; [exact H|].
  apply (normalize_grad_is_centred SampleNorm.norm_scale SampleNorm.src 2
           SampleNorm.dy H).
Defined.

Lemma top_loss_at_least_loss_witness :
  Z.of_nat (length [1; 3; 8]%Q) = 3%Z /\ (1 <= 3)%Z /\
  (1 <= loss_top_snap SampleRun.snapped)%Z /\
  (0 < loss_top_p SampleRun.snapped)%Q /\
  exists top loss,
    compute SampleRun.snapped 3 [1; 3; 8]%Q = Returned (top, loss) /\
    (loss <= top)%Q.
Proof.
  split; [reflexivity|]. split; [lia|]. split; [simpl; lia|].
  split; [reflexivity|].
  destruct (top_loss_at_least_loss SampleRun.snapped 3 [1; 3; 8]%Q eq_refl
              ltac:(lia) ltac:(simpl; lia) eq_refl)
    as [top [loss [E [_ [Hle _]]]]].
  exists top, loss. split; assumption.
Defined.

Lemma monitor_call_returns_witness :
  device_steps SampleRun.training <> 0%Z /\
  py_max (map (fun s => (s / device_steps SampleRun.training)%Z)
              (median_sizes SampleRun.wandb)) = Some 3%Z /\
  (1 <= 3)%Z /\
  exists v,
    snd (WandbLog_call SampleRun.training SampleRun.wandb SampleSpike.monitor 10 0)
    = Returned v.
Proof.
  split; [discriminate|]. split; [reflexivity|]. split; [lia|].
  apply (proj1 (monitor_call_returns SampleRun.training SampleRun.wandb 3
                  ltac:(discriminate) eq_refl ltac:(lia) SampleSpike.monitor 10 0)).
Defined.

Lemma spiking_means_latest_above_witness :
  (1 <= device_steps SampleRun.training)%Z /\
  py_max (map (fun s => (s / device_steps SampleRun.training)%Z)
              (median_sizes SampleSpike.wandb)) = Some 5%Z /\
  (0 <= maximum_spike_duration (early_stopping SampleRun.training))%Z /\
  snd (WandbLog_call SampleRun.training SampleSpike.wandb SampleSpike.monitor 10 0)
    = Returned Spiking /\
  (median (losses (fst (WandbLog_call SampleRun.training SampleSpike.wandb
                          SampleSpike.monitor 10 0)))
   * maximum_spike_size (early_stopping SampleRun.training)
   < 10 / inject_Z (device_steps SampleRun.training))%Q.
Proof.
  split; [simpl; lia|]. split; [reflexivity|]. split; [simpl; lia|].
  split; [reflexivity|].
  apply (spiking_means_latest_above SampleRun.training SampleSpike.wandb 5
           ltac:(discriminate) eq_refl ltac:(lia) SampleSpike.monitor 10 0
           ltac:(simpl; lia) ltac:(simpl; lia) eq_refl).
Defined.

Lemma flat_losses_never_stop_witness :
  (1 <= device_steps SampleRun.training)%Z /\
  py_max (map (fun s => (s / device_steps SampleRun.training)%Z)
              (median_sizes SampleRun.wandb)) = Some 3%Z /\
  (0 <= minimum_relative_loss_change (early_stopping SampleRun.training))%Q /\
  (1 <= maximum_spike_size (early_stopping SampleRun.training))%Q /\
  (0 <= maximum_spike_duration (early_stopping SampleRun.training))%Z /\
  (0 <= 2)%Q /\
  Forall (fun reading : Q * Q => (fst reading == 2)%Q) SampleSpike.flat /\
  Forall (fun o => exists logged, o = Returned (Continue logged))
         (snd (feed SampleRun.training SampleRun.wandb (WandbLog_init false)
                    SampleSpike.flat)).
Proof.
  assert (Hflat : Forall (fun reading : Q * Q => (fst reading == 2)%Q) SampleSpike.flat).
  { repeat constructor. }
  split; [simpl; lia|]. split; [reflexivity|]. split; [discriminate|].
  split; [discriminate|]. split; [simpl; lia|]. split; [discriminate|].
  split; [exact Hflat|].
  apply (flat_losses_never_stop SampleRun.training SampleRun.wandb 3
           ltac:(simpl; lia) eq_refl ltac:(lia) ltac:(discriminate)
           ltac:(discriminate) ltac:(simpl; lia) 2 ltac:(discriminate) false
           SampleSpike.flat Hflat).
Defined.

Lemma zero_window_never_trims_witness :
  median_sizes SampleRun.wandb <> [] /\
  Forall (fun s => (0 <= s < device_steps SampleEdge.coarse)%Z)
         (median_sizes SampleRun.wandb) /\
  length (losses (fst (feed SampleEdge.coarse SampleRun.wandb (WandbLog_init false)
                            SampleReadings.five)))
  = 5%nat.
Proof.
  assert (H : Forall (fun s => (0 <= s < device_steps SampleEdge.coarse)%Z)
                     (median_sizes SampleRun.wandb)).
  { repeat constructor; simpl; lia. }
  split; [discriminate|]. split; [exact H|].
  destruct (zero_window_never_trims SampleEdge.coarse SampleRun.wandb
              SampleReadings.five (WandbLog_init false) ltac:(discriminate) H)
    as [Hl _].
  rewrite Hl. reflexivity.
Defined.

Lemma no_median_sizes_raises_witness :
  device_steps SampleRun.training <> 0%Z /\
  median_sizes SampleEdge.no_sizes = [] /\
  snd (feed SampleRun.training SampleEdge.no_sizes (WandbLog_init false)
            SampleReadings.falling)
  = map (fun _ => Raised ValueError) SampleReadings.falling /\
  loss_medians (fst (feed SampleRun.training SampleEdge.no_sizes (WandbLog_init false)
                          SampleReadings.falling)) = [].
Proof.
  split; [discriminate|]. split; [reflexivity|].
  destruct (no_median_sizes_raises SampleRun.training SampleEdge.no_sizes
              SampleReadings.falling (WandbLog_init false) ltac:(discriminate) eq_refl)
    as [Ho [_ [_ [Hm _]]]].
  split; [exact Ho | exact Hm].
Defined.


Lemma input_embed_table_mismatch_witness :
  length SampleVocab.inp_embd <> Z.to_nat 4 /\
  [2%Z] <> [] /\
  input_embed false 4 2 SampleVocab.inp_embd [2%Z] = Raised TypeError.
Proof.
  split; [discriminate|]. split; [discriminate|].
  apply (proj1 (input_embed_table_mismatch 4 2 SampleVocab.inp_embd [2%Z]
                  ltac:(discriminate) ltac:(discriminate))).
Defined.

Lemma psum_scatter_then_gather_is_all_reduce_witness :
  pv_wf SampleGroup.inp /\
  pv_shape SampleGroup.inp = group_size SampleGroup.inp :: [2%nat] /\
  exists y grad g,
    psum_scatter SampleGroup.inp = Returned (y, grad) /\
    grad y = Returned g /\
    pv_shape g = [2; 2]%nat.
Proof.
  assert (Hwf : pv_wf SampleGroup.inp).
  { unfold pv_wf. simpl. repeat constructor. }
  split; [exact Hwf|]. split; [reflexivity|].
  destruct (psum_scatter_then_gather_is_all_reduce SampleGroup.inp [2%nat] Hwf eq_refl)
    as [y [grad [g [E [Eg [Hs _]]]]]].
  exists y, grad, g. split; [exact E|]. split; [exact Eg | exact Hs].
Defined.


Lemma dot_last_with_first_is_matmul_witness :
  (1 <= 3)%Z /\ (1 <= 2)%Z /\
  matmul_dimension_numbers 3 2 1
  = dot_dimension_numbers 3 2 (AnInt (-1)) (AnInt 0) (ATuple []) (ATuple []).
Proof.
  split; [lia|]. split; [lia|].
  apply (proj1 (dot_last_with_first_is_matmul 3 2)); lia.
Defined.

